(** * Callback server: SOAP envelope interpretation pipeline

    A shallow embedding of [callback-server.js]: the value tree that the XML
    parser hands to the handler, the attribute normaliser and the status
    extractor ([extractFirmwareStatus]), the console formatter
    ([logCallback]), [parseXML] and the [app.post] handler with its three
    acknowledgement envelopes.

    The handler runs in a small state-and-exception monad whose state holds
    the console and the Express response object.  Strings are kept in
    UTF-8. *)

From Stdlib Require Import Ascii String.
From stdpp Require Import gmap strings list.

Set Warnings "-register-all".

Local Open Scope string_scope.
Local Open Scope list_scope.

(** ** Text helpers *)

(** The double quote and the line feed, which the envelopes contain. *)
Definition dq : string := String "034"%char EmptyString.
Definition nl : string := String "010"%char EmptyString.

(** ** Parsed values *)

(** What the XML parser builds with [explicitArray: false]: text, an object
    keyed by element (or attribute) name, or an array for a repeated
    element.  A property list is read first match first; the parser itself
    never repeats a key. *)
Inductive tree : Type :=
| TStr (s : string)
| TObj (props : list (string * tree))
| TArr (items : list tree).

(** A JavaScript value as the handler sees it: [None] is [undefined]. *)
Abbreviation jsval := (option tree).

Fixpoint assoc {V : Type} (k : string) (ps : list (string * V)) : option V :=
  match ps with
  | [] => None
  | (k', v) :: ps' => if String.eqb k k' then Some v else assoc k ps'
  end.

(** [t.k] for a value [t] that is neither [undefined] nor [null].  Text and
    arrays carry none of the names this program reads. *)
Definition get (t : tree) (k : string) : jsval :=
  match t with
  | TObj ps => assoc k ps
  | TStr _ | TArr _ => None
  end.

(** [v?.k] *)
Definition get_opt (v : jsval) (k : string) : jsval :=
  match v with
  | Some t => get t k
  | None => None
  end.

(** JavaScript truthiness: [undefined] and the empty string are falsy,
    every object, array and non-empty string is truthy. *)
Definition truthy (v : jsval) : bool :=
  match v with
  | None => false
  | Some (TStr s) => negb (String.eqb s EmptyString)
  | Some _ => true
  end.

(** [a || b] *)
Definition jor (a b : jsval) : jsval := if truthy a then a else b.

(** [a || 'lit'] for a non-empty literal: never [undefined]. *)
Definition or_lit (a : jsval) (lit : string) : tree :=
  match a with
  | Some t => if truthy a then t else TStr lit
  | None => TStr lit
  end.

(** [Array.isArray(x) ? x : [x]] *)
Definition as_array (t : tree) : list tree :=
  match t with
  | TArr items => items
  | _ => [t]
  end.

Fixpoint join (sep : string) (l : list string) : string :=
  match l with
  | [] => EmptyString
  | [s] => s
  | s :: l' => s +:+ sep +:+ join sep l'
  end.

(** String coercion of a parsed value, as template literals, [chalk] and
    property keys apply it; [None] is the [TypeError] of a value that
    cannot be converted.  Text is itself.  An object is [[object Object]]
    through the inherited [toString], unless it has a property of its own
    named [toString]: what the parser stores there is not callable, the
    inherited [valueOf] returns the object itself, and the conversion
    throws.  An array is its elements, converted in turn and joined by
    commas. *)
Fixpoint toStr (t : tree) : option string :=
  match t with
  | TStr s => Some s
  | TObj props =>
      match assoc "toString" props with
      | Some _ => None
      | None => Some "[object Object]"
      end
  | TArr items =>
      option_map (join ",")
        ((fix go (l : list tree) : option (list string) :=
            match l with
            | [] => Some []
            | x :: l' =>
                match toStr x with
                | Some s =>
                    match go l' with
                    | Some ss => Some (s :: ss)
                    | None => None
                    end
                | None => None
                end
            end) items)
  end.

Definition render (v : jsval) : option string :=
  match v with
  | Some t => toStr t
  | None => Some "undefined"
  end.

(** ** The XML parser's configuration

    [parseXML] builds an [xml2js.Parser] with three options and leaves the
    rest at the library's defaults.  The module below records the options
    and the part of the library that they steer, as the library documents
    it: name processing, and the construction of the value tree from the
    element tree (attributes under [$], mixed text under [_], repeated
    children collected into an array).

    The library tests [key in obj] before it stores a child.  For an
    element named as a property that every object inherits ([toString],
    [valueOf], [constructor] and the like) the test finds the inherited
    function, and the library stores an array that begins with that
    function.  A [tree] has no function values: the model stores the child
    as under any other name.  The name is a property of the object's own
    in the library and in the model alike, which is all that string
    coercion depends on, and the handler reads none of these names.
    Outside the model: an element named [__proto__], whose value the
    library makes the prototype of the object, an element named [_], and
    CDATA sections. *)
Module Xml2js.

Record ParserOptions : Type := {
  explicitArray : bool;
  ignoreAttrs : bool;
  tagNameProcessors : list (string -> string);
  attrNameProcessors : list (string -> string)
}.

(** The text after the last colon of [s], if [s] has a colon. *)
Fixpoint after_last_colon (s : string) : option string :=
  match s with
  | EmptyString => None
  | String c r =>
      match after_last_colon r with
      | Some t => Some t
      | None => if Ascii.eqb c ":" then Some r else None
      end
  end.

(** [processors.stripPrefix]: [str.replace(/(?!xmlns)^.*:/, '')].  The
    greedy match runs from the start of the name to its last colon and is
    refused when the name starts with [xmlns]. *)
Definition stripPrefix (str : string) : string :=
  if String.prefix "xmlns" str then str
  else match after_last_colon str with
       | Some t => t
       | None => str
       end.

(** [processItem]: the processors are applied left to right. *)
Definition processItem (processors : list (string -> string)) (item : string) : string :=
  fold_left (fun acc f => f acc) processors item.

Definition tagName (o : ParserOptions) (name : string) : string :=
  processItem (tagNameProcessors o) name.

Definition attrName (o : ParserOptions) (name : string) : string :=
  processItem (attrNameProcessors o) name.

(** An XML document after tokenising: character data and elements. *)
Inductive node : Type :=
| Text (s : string)
| Elem (name : string) (attrs : list (string * string)) (children : list node).

Definition is_space (c : ascii) : bool :=
  existsb (Ascii.eqb c) [" "; "009"; "010"; "011"; "012"; "013"]%char.

(** The third byte of a white space character that starts with [E2 80]:
    U+2000 to U+200A, U+2028, U+2029 and U+202F. *)
Definition is_space_E2_80 (c : ascii) : bool :=
  let n := nat_of_ascii c in
  (Nat.leb 128 n && Nat.leb n 138) || Nat.eqb n 168 || Nat.eqb n 169 || Nat.eqb n 175.

(** [/^\s*$/]: only white space, the ASCII characters and U+00A0, U+1680,
    U+2000 to U+200A, U+2028, U+2029, U+202F, U+205F, U+3000 and U+FEFF in
    their UTF-8 encoding. *)
Fixpoint blank (s : string) : bool :=
  match s with
  | EmptyString => true
  | String c r =>
      if is_space c then blank r
      else
        match r with
        | String c2 r2 =>
            if Nat.eqb (nat_of_ascii c) 194 && Nat.eqb (nat_of_ascii c2) 160 then blank r2
            else
              match r2 with
              | String c3 r3 =>
                  let n := nat_of_ascii c in
                  let n2 := nat_of_ascii c2 in
                  let n3 := nat_of_ascii c3 in
                  if (Nat.eqb n 225 && Nat.eqb n2 154 && Nat.eqb n3 128)
                     || (Nat.eqb n 226 && Nat.eqb n2 128 && is_space_E2_80 c3)
                     || (Nat.eqb n 226 && Nat.eqb n2 129 && Nat.eqb n3 159)
                     || (Nat.eqb n 227 && Nat.eqb n2 128 && Nat.eqb n3 128)
                     || (Nat.eqb n 239 && Nat.eqb n2 187 && Nat.eqb n3 191)
                  then blank r3
                  else false
              | EmptyString => false
              end
        | EmptyString => false
        end
  end.

(** [obj[key] = v] on a property list: in place when the key exists, at
    the end otherwise. *)
Fixpoint obj_set (k : string) (v : tree) (ps : list (string * tree)) : list (string * tree) :=
  match ps with
  | [] => [(k, v)]
  | (k', v') :: ps' =>
      if String.eqb k k' then (k, v) :: ps' else (k', v') :: obj_set k v ps'
  end.

(** [assignOrPush]: a first child under a name is stored as it is (or as
    a one-element array under [explicitArray]); a further one turns the
    entry into an array and is pushed. *)
Definition assignOrPush (o : ParserOptions) (ps : list (string * tree))
    (k : string) (v : tree) : list (string * tree) :=
  match assoc k ps with
  | None => obj_set k (if explicitArray o then TArr [v] else v) ps
  | Some (TArr items) => obj_set k (TArr (items ++ [v])) ps
  | Some old => obj_set k (TArr [old; v]) ps
  end.

(** The character data directly under an element, concatenated. *)
Fixpoint chars (kids : list node) : string :=
  match kids with
  | [] => EmptyString
  | Text s :: kids' => s +:+ chars kids'
  | Elem _ _ _ :: kids' => chars kids'
  end.

(** The tokeniser keeps the first of two attributes with the same name. *)
Fixpoint first_attrs (seen : list string) (attrs : list (string * string))
    : list (string * string) :=
  match attrs with
  | [] => []
  | (k, v) :: attrs' =>
      if existsb (String.eqb k) seen then first_attrs seen attrs'
      else (k, v) :: first_attrs (k :: seen) attrs'
  end.

Definition attr_props (o : ParserOptions) (attrs : list (string * string))
    : list (string * tree) :=
  if ignoreAttrs o then []
  else match first_attrs [] attrs with
       | [] => []
       | kept => [("$", TObj (fold_left (fun acc kv => obj_set (attrName o kv.1) (TStr kv.2) acc)
                                       kept []))]
       end.

(** The value stored for an element when its closing tag is read. *)
Fixpoint value_of (o : ParserOptions) (n : node) : tree :=
  match n with
  | Text s => TStr s
  | Elem _ attrs kids =>
      let text := chars kids in
      let props :=
        (fix go (ks : list node) (acc : list (string * tree)) : list (string * tree) :=
           match ks with
           | [] => acc
           | Text _ :: ks' => go ks' acc
           | (Elem cname _ _ as c) :: ks' =>
               go ks' (assignOrPush o acc (tagName o cname) (value_of o c))
           end) kids (attr_props o attrs) in
      if blank text then
        match props with
        | [] => TStr text
        | _ => TObj props
        end
      else
        match props with
        | [] => TStr text
        | _ => TObj (("_", TStr text) :: props)
        end
  end.

(** The result for a document with root element [root] ([explicitRoot]
    is on by default): an object with the root's processed name as its
    only key. *)
Definition result_of (o : ParserOptions) (root : node) : tree :=
  match root with
  | Text s => TStr s
  | Elem name _ _ => TObj [(tagName o name, value_of o root)]
  end.

End Xml2js.

(** The options of [parseXML].  [attrNameProcessors] is not set there, so
    the library default, no processor, applies. *)
Definition parserOptions : Xml2js.ParserOptions := {|
  Xml2js.explicitArray := false;
  Xml2js.ignoreAttrs := false;
  Xml2js.tagNameProcessors := [Xml2js.stripPrefix];
  Xml2js.attrNameProcessors := []
|}.

(** ** Exceptions *)

Inductive exn : Type :=
| TypeError (msg : string)
| ParserError (msg : string).

Inductive outcome (A : Type) : Type :=
| Ret (a : A)
| Throw (e : exn).
Arguments Ret {A} a.
Arguments Throw {A} e.

(** The error of a string coercion that fails. *)
Definition coercion_error : exn :=
  TypeError "Cannot convert object to primitive value".

(** A loop that threads a value through the elements of a list and stops
    at the first exception: [forEach] with a callback that updates an
    object. *)
Fixpoint fold_outcome {S A : Type} (f : S -> A -> outcome S) (s : S) (l : list A)
    : outcome S :=
  match l with
  | [] => Ret s
  | x :: l' =>
      match f s x with
      | Ret s' => fold_outcome f s' l'
      | Throw e => Throw e
      end
  end.

(** ** The attribute object *)

(** The object literal [{}] that [extractFirmwareStatus] fills: its own
    properties in the order of their creation, and its prototype, [None]
    for [Object.prototype] and [Some t] once an assignment to [__proto__]
    has replaced it by the parsed value [t]. *)
Record js_object : Type := {
  own : list (string * jsval);
  proto : option tree
}.

Definition empty_object : js_object := {| own := []; proto := None |}.

(** Storing an own property: in place when the key exists, at the end
    otherwise. *)
Fixpoint prop_set (k : string) (v : jsval) (ps : list (string * jsval))
    : list (string * jsval) :=
  match ps with
  | [] => [(k, v)]
  | (k', v') :: ps' =>
      if String.eqb k k' then (k, v) :: ps' else (k', v') :: prop_set k v ps'
  end.

(** [o[key] = value].  The key [__proto__] is the accessor that every
    object inherits: the assignment creates no property; it replaces the
    prototype when the value is an object or an array and does nothing
    otherwise. *)
Definition assign (key : string) (value : jsval) (o : js_object) : js_object :=
  if String.eqb key "__proto__" then
    match value with
    | Some (TObj props) => {| own := own o; proto := Some (TObj props) |}
    | Some (TArr items) => {| own := own o; proto := Some (TArr items) |}
    | Some (TStr _) | None => o
    end
  else {| own := prop_set key value (own o); proto := proto o |}.

(** [o[key]] for the names the program reads: an own property first, then
    the replaced prototype. *)
Definition obj_read (o : js_object) (key : string) : jsval :=
  match assoc key (own o) with
  | Some v => v
  | None =>
      match proto o with
      | Some t => get t key
      | None => None
      end
  end.

(** The integer a property name spells when the name is an array index:
    the canonical decimal form of an integer below 2^32 - 1. *)
Definition digit_of (c : ascii) : option N :=
  let n := N_of_ascii c in
  if (N.leb 48 n && N.leb n 57)%bool then Some (n - 48)%N else None.

Fixpoint digits (s : string) (acc : N) : option N :=
  match s with
  | EmptyString => Some acc
  | String c r =>
      match digit_of c with
      | Some d => digits r (10 * acc + d)%N
      | None => None
      end
  end.

Definition array_index (s : string) : option N :=
  match s with
  | EmptyString => None
  | String c r =>
      if Ascii.eqb c "0" && negb (String.eqb r EmptyString) then None
      else match digits s 0%N with
           | Some n => if N.ltb n 4294967295%N then Some n else None
           | None => None
           end
  end.

Fixpoint insert_index (n : N) (k : string) (l : list (N * string)) : list (N * string) :=
  match l with
  | [] => [(n, k)]
  | (n', k') :: l' =>
      if N.leb n n' then (n, k) :: l else (n', k') :: insert_index n k l'
  end.

(** [Object.keys]: the array-index names in ascending numeric order, then
    the other names in the order of their creation. *)
Definition own_keys (ps : list (string * jsval)) : list string :=
  map snd (fold_right (fun kv acc =>
                         match array_index kv.1 with
                         | Some n => insert_index n kv.1 acc
                         | None => acc
                         end) [] ps) ++
  List.filter (fun k => match array_index k with Some _ => false | None => true end)
              (map fst ps).

(** ** Attribute normaliser and status extractor *)

(** The record built by [extractFirmwareStatus]. *)
Record status : Type := {
  accessPointId : tree;
  serialNumber : tree;
  online : tree;
  syncStatus : tree;
  firmwareUpgradeStatus : tree;
  timeOfLastFirmwareUpgrade : tree;
  attributes : js_object
}.

(** [attr.name || attr.Name || attr.NAME] *)
Definition attr_name (attr : tree) : jsval :=
  jor (jor (get attr "name") (get attr "Name")) (get attr "NAME").

(** [attr.value || attr.Value || attr.VALUE] *)
Definition attr_value (attr : tree) : jsval :=
  jor (jor (get attr "value") (get attr "Value")) (get attr "VALUE").

(** The body of the [forEach] callback: [if (name) attributes[name] = value];
    the name is coerced to a property key, which can throw. *)
Definition attr_step (o : js_object) (attr : tree) : outcome js_object :=
  let name := attr_name attr in
  let value := attr_value attr in
  if truthy name then
    match render name with
    | Some key => Ret (assign key value o)
    | None => Throw coercion_error
    end
  else Ret o.

(** The attribute loop on an [attributes] node: coercion to an array, then
    [forEach] over it, starting from [{}]. *)
Definition normalize_attributes (attrs : tree) : outcome js_object :=
  fold_outcome attr_step empty_object (as_array attrs).

(** [extractFirmwareStatus]; [Ret None] is its [null]. *)
Definition extractFirmwareStatus (accessPoint : jsval) : outcome (option status) :=
  match accessPoint with
  | None => Ret None
  | Some ap =>
      if negb (truthy accessPoint) then Ret None
      else
        let filled :=
          let apa := get ap "accessPointAttributes" in
          if truthy apa && truthy (get_opt apa "attributes") then
            match get_opt apa "attributes" with
            | Some attrs => normalize_attributes attrs
            | None => Ret empty_object
            end
          else Ret empty_object in
        match filled with
        | Ret attrs => Ret (Some {|
            accessPointId := or_lit (get ap "id") "N/A";
            serialNumber := or_lit (get ap "serialNumber") "N/A";
            online := or_lit (get ap "online") "N/A";
            syncStatus := or_lit (get ap "syncStatus") "N/A";
            firmwareUpgradeStatus := or_lit (get ap "firmwareUpgradeStatus") "N/A";
            timeOfLastFirmwareUpgrade := or_lit (get ap "timeOfLastFirmwareUpgrade") "N/A";
            attributes := attrs
          |})
        | Throw e => Throw e
        end
  end.

(** ** Console, response and the handler monad *)

(** One console call: a line of text, the label and the value of the
    [JSON.stringify] call of the unknown branch, or a [console.error] with
    its label and exception.  Lines are recorded as printed with colours
    off: the styles of [chalk] wrap a text in escape sequences and change
    nothing else. *)
Inductive log_entry : Type :=
| Out (line : string)
| OutJson (label : string) (v : jsval)
| Err (label : string) (e : exn).

(** The Express response object: status code (200 until set), the
    [Content-Type] header when the handler sets it, and the body once sent. *)
Record response : Type := {
  statusCode : nat;
  contentType : option string;
  sent : option string
}.

Record world : Type := {
  console : list log_entry;
  res : response
}.

Definition fresh : world :=
  {| console := []; res := {| statusCode := 200; contentType := None; sent := None |} |}.

Definition M (A : Type) : Type := world -> outcome A * world.

Definition ret {A} (a : A) : M A := fun w => (Ret a, w).
Definition throw {A} (e : exn) : M A := fun w => (Throw e, w).
Definition bind {A B} (m : M A) (k : A -> M B) : M B :=
  fun w => match m w with
           | (Ret a, w') => k a w'
           | (Throw e, w') => (Throw e, w')
           end.
Definition try_catch {A} (m : M A) (handler : exn -> M A) : M A :=
  fun w => match m w with
           | (Ret a, w') => (Ret a, w')
           | (Throw e, w') => handler e w'
           end.

Notation "'let*' x := m 'in' k" := (bind m (fun x => k))
  (at level 10, x name, m at level 100, k at level 200).
Notation "m ;;; k" := (bind m (fun _ => k))
  (at level 100, k at level 200, right associativity).

Definition emit (e : log_entry) : M unit :=
  fun w => (Ret tt, {| console := console w ++ [e]; res := res w |}).
Definition console_log (line : string) : M unit := emit (Out line).
Definition console_error (label : string) (e : exn) : M unit := emit (Err label e).

Definition res_status (code : nat) : M unit :=
  fun w => (Ret tt, {| console := console w;
                       res := {| statusCode := code;
                                 contentType := contentType (res w);
                                 sent := sent (res w) |} |}).
Definition res_set_content_type (v : string) : M unit :=
  fun w => (Ret tt, {| console := console w;
                       res := {| statusCode := statusCode (res w);
                                 contentType := Some v;
                                 sent := sent (res w) |} |}).
Definition res_send (body : string) : M unit :=
  fun w => (Ret tt, {| console := console w;
                       res := {| statusCode := statusCode (res w);
                                 contentType := contentType (res w);
                                 sent := Some body |} |}).

(** An outcome computed without the console. *)
Definition lift {A} (r : outcome A) : M A := fun w => (r, w).

(** Reading a property of [null] or [undefined] throws. *)
Definition deref {A} (what : string) (v : option A) : M A :=
  match v with
  | Some a => ret a
  | None => throw (TypeError ("Cannot read properties of " +:+ what))
  end.

(** [forEach] with an effectful callback. *)
Fixpoint for_each {A} (f : A -> M unit) (l : list A) : M unit :=
  match l with
  | [] => ret tt
  | x :: l' => f x ;;; for_each f l'
  end.

(** A template literal that ends in one coerced value: the text, or [None]
    when the coercion throws. *)
Definition tpl (prefix : string) (v : jsval) : option string :=
  option_map (String.append prefix) (render v).

(** [console.log] of a template literal: the literal is evaluated first,
    and nothing is printed when that throws. *)
Definition log_template (line : option string) : M unit :=
  match line with
  | Some s => console_log s
  | None => throw coercion_error
  end.

(** ** The acknowledgement envelopes

    The three template literals of the handler, line breaks and
    indentation included. *)

Definition xml_decl : string :=
  "<?xml version=" +:+ dq +:+ "1.0" +:+ dq +:+ " encoding=" +:+ dq +:+ "UTF-8" +:+ dq +:+ "?>".
Definition soap_open : string :=
  "<soap:Envelope xmlns:soap=" +:+ dq +:+ "http://www.w3.org/2003/05/soap-envelope" +:+ dq +:+ ">".
Definition ns_attr : string :=
  " xmlns:ns=" +:+ dq +:+ "http://xml.assaabloy.com/dsr/2.0" +:+ dq.

Definition notifyUpdated_envelope : string :=
  xml_decl +:+ nl +:+
  soap_open +:+ nl +:+
  "  <soap:Body>" +:+ nl +:+
  "    <ns:notifyUpdatedResponse" +:+ ns_attr +:+ "/>" +:+ nl +:+
  "  </soap:Body>" +:+ nl +:+
  "</soap:Envelope>".

Definition newEvent_envelope : string :=
  xml_decl +:+ nl +:+
  soap_open +:+ nl +:+
  "  <soap:Body>" +:+ nl +:+
  "    <ns:newEventResponse" +:+ ns_attr +:+ "/>" +:+ nl +:+
  "  </soap:Body>" +:+ nl +:+
  "</soap:Envelope>".

Definition unknown_envelope : string :=
  xml_decl +:+ nl +:+
  soap_open +:+ nl +:+
  "  <soap:Body/>" +:+ nl +:+
  "</soap:Envelope>".

Definition soap_content_type : string := "application/soap+xml; charset=utf-8".

(** The single-line literals of the specification's interface section,
    written from its words, for comparison with the envelopes above. *)
Definition spec_StatusUpdate_template : string :=
  xml_decl +:+ soap_open +:+ "<soap:Body><ns:notifyUpdatedResponse" +:+ ns_attr +:+
  "/></soap:Body></soap:Envelope>".

Definition spec_Unrecognized_template : string :=
  xml_decl +:+ soap_open +:+ "<soap:Body/></soap:Envelope>".

(** ** The console formatter *)

Fixpoint repeat_str (s : string) (n : nat) : string :=
  match n with
  | O => EmptyString
  | S n' => s +:+ repeat_str s n'
  end.

Definition firmwareAttrs : list string :=
  [ "FIRMWARE_VERSION";
    "FIRMWARE_VERSION_INPROGRESS";
    "FIRMWARE_UPLOAD_PERCENTAGE";
    "CC_FIRMWARE_VERSION";
    "CC_FIRMWARE_VERSION_INPROGRESS";
    "CC_FIRMWARE_UPLOAD_PERCENTAGE" ].

(** The line of one attribute. *)
Definition attr_line (o : js_object) (key : string) : option string :=
  tpl ("   " +:+ key +:+ ": ") (obj_read o key).

(** The callback of the loop over the firmware names. *)
Definition log_firmware_attr (o : js_object) (key : string) : M unit :=
  if truthy (obj_read o key) then log_template (attr_line o key) else ret tt.

(** The callback of the loop over [Object.keys(status.attributes)]. *)
Definition log_other_attr (o : js_object) (key : string) : M unit :=
  if negb (existsb (String.eqb key) firmwareAttrs) then log_template (attr_line o key)
  else ret tt.

(** The [notifyUpdated] branch of [logCallback], after the banner. *)
Definition log_notifyUpdated (data : jsval) : M unit :=
  let* status := lift (extractFirmwareStatus data) in
  console_log "📱 Access Point Information:" ;;;
  let* st := deref "null (reading 'accessPointId')" status in
  log_template (tpl "   ID: " (Some (accessPointId st))) ;;;
  log_template (tpl "   Serial: " (Some (serialNumber st))) ;;;
  log_template (tpl "   Online: " (Some (online st))) ;;;
  log_template (tpl "   Sync Status: " (Some (syncStatus st))) ;;;
  console_log (nl +:+ "🔧 Firmware Status:") ;;;
  log_template (tpl "   Upgrade Status: " (Some (firmwareUpgradeStatus st))) ;;;
  log_template (tpl "   Last Update: " (Some (timeOfLastFirmwareUpgrade st))) ;;;
  if Nat.ltb 0 (length (own_keys (own (attributes st)))) then
    console_log (nl +:+ "📊 Attributes:") ;;;
    for_each (log_firmware_attr (attributes st)) firmwareAttrs ;;;
    for_each (log_other_attr (attributes st)) (own_keys (own (attributes st)))
  else ret tt.

(** One line of the [logData] loop: the key is coerced, then the value. *)
Definition logData_line (item : tree) : option string :=
  match toStr (or_lit (get item "key") "N/A") with
  | Some k => tpl ("   " +:+ k +:+ ": ") (Some (or_lit (get item "value") "N/A"))
  | None => None
  end.

(** The [logData] part of the [newEvent] branch. *)
Definition log_logData (logData : jsval) : M unit :=
  if truthy logData then
    console_log (nl +:+ "📋 Log Data:") ;;;
    match logData with
    | Some ld => for_each (fun item => log_template (logData_line item)) (as_array ld)
    | None => ret tt
    end
  else ret tt.

(** The [newEvent] branch of [logCallback], after the banner. *)
Definition log_newEvent (data : jsval) : M unit :=
  console_log "📋 Event Information:" ;;;
  let* d := deref "undefined (reading 'origin')" data in
  log_template (tpl "   Origin: "
                  (Some (or_lit (get_opt (get d "origin") "logOriginType") "N/A"))) ;;;
  log_template (tpl "   Family: " (Some (or_lit (get d "family") "N/A"))) ;;;
  log_template (tpl "   Code: " (Some (or_lit (get d "code") "N/A"))) ;;;
  log_template (tpl "   Timestamp: " (Some (or_lit (get d "timeStamp") "N/A"))) ;;;
  log_logData (get d "logData").

(** ** Requests *)

Record request : Type := {
  path : string;
  headers : gmap string string;
  body : string
}.

(** [h || d] on a header value. *)
Definition header_or (h : option string) (d : string) : string :=
  match h with
  | Some v => if String.eqb v EmptyString then d else v
  | None => d
  end.

(** [parsed.Envelope?.Body] *)
Definition soap_body (parsed : tree) : jsval :=
  let envelope := get parsed "Envelope" in
  get_opt envelope "Body".

Section Server.

(** The clock reading of [new Date().toISOString()]. *)
Variable now : string.

(** [parser.parseStringPromise] of a parser built with the given
    options: it throws, or resolves with a tree, or with [null] ([None])
    for blank input. *)
Variable parseStringPromise : Xml2js.ParserOptions -> string -> outcome (option tree).

Definition logCallback (type : string) (data : jsval) : M unit :=
  console_log (nl +:+ repeat_str "=" 80) ;;;
  console_log ("[" +:+ now +:+ "] " +:+ type +:+ " Callback Received") ;;;
  console_log (repeat_str "=" 80) ;;;
  (if String.eqb type "notifyUpdated" then log_notifyUpdated data
   else if String.eqb type "newEvent" then log_newEvent data
   else ret tt) ;;;
  console_log (repeat_str "=" 80 +:+ nl).

(** [parseXML]: the parser's exception is logged and turned into [null]. *)
Definition parseXML (xmlString : string) : M (option tree) :=
  try_catch
    (fun w => (parseStringPromise parserOptions xmlString, w))
    (fun error => console_error "XML Parse Error:" error ;;; ret None).

(** The three-way branch of the handler on the envelope's body: it logs
    and yields the response envelope. *)
Definition dispatch (body : jsval) : M string :=
  if truthy (get_opt body "notifyUpdated") then
    let accessPoint := get_opt (get_opt body "notifyUpdated") "accessPoint" in
    logCallback "notifyUpdated" accessPoint ;;;
    ret notifyUpdated_envelope
  else if truthy (get_opt body "newEvent") then
    let logEntry := get_opt (get_opt body "newEvent") "logEntry" in
    logCallback "newEvent" logEntry ;;;
    ret newEvent_envelope
  else
    console_log "⚠️  Unknown callback type" ;;;
    emit (OutJson "Body:" body) ;;;
    ret unknown_envelope.

(** The [try] block of the [app.post] handler. *)
Definition post_try (req : request) : M unit :=
  let soapAction :=
    header_or (headers req !! "action")
              (header_or (headers req !! "soapaction") "unknown") in
  console_log (nl +:+ "Received request to: " +:+ path req) ;;;
  console_log ("SOAPAction: " +:+ soapAction) ;;;
  let* parsed := parseXML (body req) in
  let invalid :=
    console_log "❌ Failed to parse SOAP envelope" ;;;
    res_status 400 ;;; res_send "Invalid SOAP" in
  match parsed with
  | None => invalid
  | Some p =>
      if negb (truthy parsed) then invalid
      else
        let* responseEnvelope := dispatch (soap_body p) in
        res_set_content_type soap_content_type ;;;
        res_status 200 ;;; res_send responseEnvelope
  end.

(** The [app.post('*', ...)] handler: the [try] block and its [catch]. *)
Definition post_handler (req : request) : M unit :=
  try_catch (post_try req)
    (fun error =>
       console_error "❌ Error processing callback:" error ;;;
       res_status 500 ;;; res_send "Internal Server Error").

(** The response a request receives. *)
Definition respond (req : request) : response := res ((post_handler req fresh).2).

(** The console after a request. *)
Definition logged (req : request) : list log_entry := console ((post_handler req fresh).2).

End Server.

(** ** Reference readings and observations used in the statements *)

(** The value of [a || b || c]: the first truthy operand, the last operand
    when none is. *)
Fixpoint first_truthy (vs : list jsval) : jsval :=
  match vs with
  | [] => None
  | [v] => v
  | v :: vs' => if truthy v then v else first_truthy vs'
  end.

(** The specification's wording of attribute resolution, for comparison:
    the first *defined* value among the candidate keys. *)
Fixpoint spec_first_defined (attr : tree) (keys : list string) : jsval :=
  match keys with
  | [] => None
  | k :: keys' =>
      match get attr k with
      | Some v => Some v
      | None => spec_first_defined attr keys'
      end
  end.

Definition name_keys : list string := ["name"; "Name"; "NAME"].
Definition value_keys : list string := ["value"; "Value"; "VALUE"].

(** The property key an entry assigns to, when it assigns at all: [None]
    for an entry without a truthy name and for one whose name cannot be
    coerced. *)
Definition attr_key (attr : tree) : option string :=
  if truthy (attr_name attr) then render (attr_name attr) else None.

(** The own properties of an object as a finite map. *)
Definition bindings (o : js_object) : gmap string jsval := list_to_map (own o).

(** A parsed value in which no object has a property named [toString]:
    every value inside it can be coerced to a string. *)
Fixpoint plain (t : tree) : bool :=
  match t with
  | TStr _ => true
  | TObj props =>
      match assoc "toString" props with
      | Some _ => false
      | None =>
          (fix go (ps : list (string * tree)) : bool :=
             match ps with
             | [] => true
             | (_, v) :: ps' => plain v && go ps'
             end) props
      end
  | TArr items =>
      (fix go (l : list tree) : bool :=
         match l with
         | [] => true
         | x :: l' => plain x && go l'
         end) items
  end.

Definition plain_val (v : jsval) : bool :=
  match v with
  | Some t => plain t
  | None => true
  end.

Definition plain_object (o : js_object) : Prop :=
  Forall (fun kv => plain_val kv.2 = true) (own o) /\ plain_val (proto o) = true.

(** The own names of the attribute object are pairwise different and
    [__proto__] is never one of them. *)
Definition keys_ok (o : js_object) : Prop :=
  NoDup (map fst (own o)) /\ "__proto__" ∉ map fst (own o).

Definition envelopes : list string :=
  [notifyUpdated_envelope; newEvent_envelope; unknown_envelope].

(** The text without its layout: every line feed and the indentation that
    follows it are dropped. *)
Fixpoint strip_layout_from (line_start : bool) (s : string) : string :=
  match s with
  | EmptyString => EmptyString
  | String c r =>
      if Ascii.eqb c "010" then strip_layout_from true r
      else if line_start && Ascii.eqb c " " then strip_layout_from true r
      else String c (strip_layout_from false r)
  end.

Definition strip_layout (s : string) : string := strip_layout_from false s.

(** The responses of the two error paths. *)
Definition invalid_soap : response :=
  {| statusCode := 400; contentType := None; sent := Some "Invalid SOAP" |}.

Definition internal_error : response :=
  {| statusCode := 500; contentType := None; sent := Some "Internal Server Error" |}.

(** The response of a SOAP acknowledgement with the given envelope. *)
Definition acknowledged (envelope : string) : response :=
  {| statusCode := 200;
     contentType := Some soap_content_type;
     sent := Some envelope |}.

(** [x] is what a parent object holds for a child whose value is [v]: the
    value itself, or an array that contains it. *)
Definition holds (v x : tree) : Prop :=
  x = v \/ exists items, x = TArr items /\ v ∈ items.

(** The properties a parent accumulates from its child elements, on top of
    [acc]: the loop inside [Xml2js.value_of]. *)
Definition child_props (o : Xml2js.ParserOptions) (kids : list Xml2js.node)
    (acc : list (string * tree)) : list (string * tree) :=
  foldl (fun acc k =>
           match k with
           | Xml2js.Text _ => acc
           | Xml2js.Elem cname _ _ =>
               Xml2js.assignOrPush o acc (Xml2js.tagName o cname) (Xml2js.value_of o k)
           end) acc kids.

(** [m] returns [a] after writing exactly [out] to the console. *)
Definition logs {A} (m : M A) (a : A) (out : list log_entry) : Prop :=
  forall w, m w = (Ret a, {| console := console w ++ out; res := res w |}).

(** [m] ends with [r], which may be a thrown exception, after writing to
    the console only; what it writes and how it ends do not depend on the
    world it starts from. *)
Definition logs_then {A} (m : M A) (r : outcome A) : Prop :=
  exists out, forall w,
    m w = (r, {| console := console w ++ out; res := res w |}).

(** [m] behaves as the console calls for the template literals [ts], one
    after the other. *)
Definition emits (m : M unit) (ts : list (option string)) : Prop :=
  forall w, m w = for_each log_template ts w.

(** The lines of a list of template literals, when all of them evaluate. *)
Fixpoint all_lines (ts : list (option string)) : option (list string) :=
  match ts with
  | [] => Some []
  | Some s :: ts' => option_map (cons s) (all_lines ts')
  | None :: _ => None
  end.

(** The template literals of the [newEvent] branch for the log entry [d]. *)
Definition event_templates (d : tree) : list (option string) :=
  [ Some "📋 Event Information:";
    tpl "   Origin: " (Some (or_lit (get_opt (get d "origin") "logOriginType") "N/A"));
    tpl "   Family: " (Some (or_lit (get d "family") "N/A"));
    tpl "   Code: " (Some (or_lit (get d "code") "N/A"));
    tpl "   Timestamp: " (Some (or_lit (get d "timeStamp") "N/A")) ] ++
  match get d "logData" with
  | Some ld =>
      if truthy (Some ld) then
        Some (nl +:+ "📋 Log Data:") :: map logData_line (as_array ld)
      else []
  | None => []
  end.

(** The template literals of the [notifyUpdated] branch for the status
    [st]: the six fields, and for a status with own attribute names the
    firmware names that read truthy, in their fixed order, followed by the
    other own names in the order of [Object.keys]. *)
Definition status_templates (st : status) : list (option string) :=
  [ Some "📱 Access Point Information:";
    tpl "   ID: " (Some (accessPointId st));
    tpl "   Serial: " (Some (serialNumber st));
    tpl "   Online: " (Some (online st));
    tpl "   Sync Status: " (Some (syncStatus st));
    Some (nl +:+ "🔧 Firmware Status:");
    tpl "   Upgrade Status: " (Some (firmwareUpgradeStatus st));
    tpl "   Last Update: " (Some (timeOfLastFirmwareUpgrade st)) ] ++
  if Nat.ltb 0 (length (own_keys (own (attributes st)))) then
    Some (nl +:+ "📊 Attributes:") ::
    map (attr_line (attributes st))
        (List.filter (fun key => truthy (obj_read (attributes st) key)) firmwareAttrs) ++
    map (attr_line (attributes st))
        (List.filter (fun key => negb (existsb (String.eqb key) firmwareAttrs))
                     (own_keys (own (attributes st))))
  else [].

(** The console lines of the two branches, when every template literal
    evaluates. *)
Definition event_lines (d : tree) : option (list log_entry) :=
  option_map (map Out) (all_lines (event_templates d)).

Definition status_lines (st : status) : option (list log_entry) :=
  option_map (map Out) (all_lines (status_templates st)).

(** The access point can be logged to the end: it extracts to a status
    record and every template literal of the branch evaluates. *)
Definition status_printable (accessPoint : jsval) : bool :=
  match extractFirmwareStatus accessPoint with
  | Ret (Some st) => bool_decide (is_Some (status_lines st))
  | Ret None | Throw _ => false
  end.

(** The log entry can be logged to the end: it is present and every
    template literal of the branch evaluates. *)
Definition event_printable (logEntry : jsval) : bool :=
  match logEntry with
  | Some d => bool_decide (is_Some (event_lines d))
  | None => false
  end.

(** The response the handler sends for an outcome of [dispatch]: the
    acknowledgement, or the answer of its [catch]. *)
Definition response_of (r : outcome string) : response :=
  match r with
  | Ret envelope => acknowledged envelope
  | Throw _ => internal_error
  end.

(** The value of the last entry of [entries] stored under the name [n]. *)
Fixpoint last_binding (n : string) (entries : list tree) : option jsval :=
  match entries with
  | [] => None
  | e :: entries' =>
      match last_binding n entries' with
      | Some v => Some v
      | None => if decide (attr_key e = Some n) then Some (attr_value e) else None
      end
  end.

(** The six scalar fields of a status record, each with the name of the
    property of the access point it is read from. *)
Definition scalar_fields (st : status) : list (string * tree) :=
  [ ("id", accessPointId st);
    ("serialNumber", serialNumber st);
    ("online", online st);
    ("syncStatus", syncStatus st);
    ("firmwareUpgradeStatus", firmwareUpgradeStatus st);
    ("timeOfLastFirmwareUpgrade", timeOfLastFirmwareUpgrade st) ].

(** The first three console lines of [logCallback] and its last one. *)
Definition banner (now type : string) : list log_entry :=
  [ Out (nl +:+ repeat_str "=" 80);
    Out ("[" +:+ now +:+ "] " +:+ type +:+ " Callback Received");
    Out (repeat_str "=" 80) ].

Definition footer : list log_entry := [ Out (repeat_str "=" 80 +:+ nl) ].

(** The two console lines the handler writes on entry. *)
Definition request_lines (req : request) : list log_entry :=
  [ Out (nl +:+ "Received request to: " +:+ path req);
    Out ("SOAPAction: " +:+
         header_or (headers req !! "action")
                   (header_or (headers req !! "soapaction") "unknown")) ].

(** Two runs of the attribute loop end alike: both complete, with the same
    properties name by name and the same prototype, or both throw the same
    exception. *)
Definition alike (r r' : outcome js_object) : Prop :=
  match r, r' with
  | Ret o, Ret o' => bindings o = bindings o' /\ proto o = proto o'
  | Throw e, Throw e' => e = e'
  | _, _ => False
  end.

(** The prototype left by two objects filled one after the other. *)
Definition later_proto (first second : option tree) : option tree :=
  match second with
  | Some t => Some t
  | None => first
  end.

(** ** Sample documents

    Element trees of callbacks a controller can send, the request bodies
    they are read from, and a reader that knows exactly these bodies. *)
Module Samples.
Import Xml2js.

Definition soap (payload : list node) : node :=
  Elem "soap:Envelope" [("xmlns:soap", "http://www.w3.org/2003/05/soap-envelope")]
    [Elem "soap:Body" [] payload].

Definition dsr : list (string * string) :=
  [("xmlns:ns", "http://xml.assaabloy.com/dsr/2.0")].

Definition leaf (name text : string) : node := Elem name [] [Text text].

(** The access point [AP-100] with one attribute, [Name]/[Value] keyed. *)
Definition status_payload : node :=
  Elem "ns:notifyUpdated" dsr
    [Elem "accessPoint" []
       [leaf "id" "AP-100";
        Elem "accessPointAttributes" []
          [Elem "attributes" []
             [leaf "Name" "FIRMWARE_VERSION"; leaf "Value" "2.1.0"]]]].

Definition status_doc : node := soap [status_payload].

(** A [notifyUpdated] element that carries no [accessPoint]. *)
Definition status_without_accessPoint : node :=
  soap [Elem "ns:notifyUpdated" dsr []].

(** A [newEvent] element that carries no [logEntry]. *)
Definition event_without_logEntry : node :=
  soap [Elem "ns:newEvent" dsr []].

(** A log entry with a single [logData] pair. *)
Definition event_doc : node :=
  soap [Elem "ns:newEvent" dsr
          [Elem "logEntry" []
             [leaf "family" "ALARM"; leaf "code" "17";
              Elem "logData" [] [leaf "key" "door"; leaf "value" "open"]]]].

(** A [newEvent] followed by the status notification above. *)
Definition event_and_status_doc : node :=
  soap [Elem "ns:newEvent" dsr [Elem "logEntry" [] [leaf "code" "17"]];
        status_payload].

(** A status notification whose [id] element has a child named
    [toString]. *)
Definition status_with_toString : node :=
  soap [Elem "ns:notifyUpdated" dsr
          [Elem "accessPoint" []
             [Elem "id" [] [leaf "toString" "AP-100"];
              leaf "serialNumber" "SN-1"]]].

(** An empty [notifyUpdated] element next to a [newEvent]. *)
Definition both_doc : node :=
  soap [Elem "notifyUpdated" [] [];
        Elem "newEvent" []
          [Elem "logEntry" [] [leaf "family" "ALARM"; leaf "code" "17"]]].

(** An envelope with an operation this receiver does not know. *)
Definition ping_doc : node := soap [Elem "ns:ping" dsr []].

(** Well-formed XML that is no SOAP envelope. *)
Definition html_doc : node := Elem "html" [] [leaf "title" "hello"].

(** The text of a document (the samples need no escaping). *)
Fixpoint to_xml (n : node) : string :=
  match n with
  | Text s => s
  | Elem name attrs kids =>
      let attrs_text :=
        fold_right (fun kv acc => " " +:+ kv.1 +:+ "=" +:+ dq +:+ kv.2 +:+ dq +:+ acc)
                   EmptyString attrs in
      match kids with
      | [] => "<" +:+ name +:+ attrs_text +:+ "/>"
      | _ =>
          "<" +:+ name +:+ attrs_text +:+ ">" +:+
          (fix go (ks : list node) : string :=
             match ks with
             | [] => EmptyString
             | k :: ks' => to_xml k +:+ go ks'
             end) kids +:+
          "</" +:+ name +:+ ">"
      end
  end.

Definition documents : list node :=
  [ status_doc; status_without_accessPoint; event_without_logEntry;
    event_doc; event_and_status_doc; status_with_toString; both_doc;
    ping_doc; html_doc ].

(** A reader that knows the sample documents by their text; any other
    text that is not blank is a syntax error to it. *)
Definition read (s : string) : option node :=
  List.find (fun doc => String.eqb s (to_xml doc)) documents.

Definition parser (o : ParserOptions) (s : string) : outcome (option tree) :=
  if blank s then Ret None
  else match read s with
       | Some doc => Ret (Some (result_of o doc))
       | None => Throw (ParserError "Unclosed root tag")
       end.

Definition post (text : string) : request :=
  {| path := "/callback"; headers := ∅; body := text |}.

(** A body whose root tag is never closed. *)
Definition unclosed : string := "<soap:Envelope><soap:Body>".

Definition clock : string := "2025-01-01T00:00:00.000Z".

End Samples.


(** * Running the handler *)

Lemma bind_ret_l {A B} (a : A) (k : A -> M B) : bind (ret a) k = k a.
Proof. reflexivity. Qed.

Lemma logs_ret {A} (a : A) : logs (ret a) a [].
Proof. intros [c r]. unfold ret. simpl. by rewrite app_nil_r. Qed.

Lemma logs_emit (e : log_entry) : logs (emit e) tt [e].
Proof. intros w. reflexivity. Qed.

Lemma logs_bind {A B} (m : M A) (k : A -> M B) (a : A) (b : B)
    (o1 o2 : list log_entry) :
  logs m a o1 -> logs (k a) b o2 -> logs (bind m k) b (o1 ++ o2).
Proof.
  intros H1 H2 w. unfold bind. rewrite H1, H2. simpl. by rewrite app_assoc.
Qed.

Lemma logs_log_then {B} (line : string) (k : M B) (b : B) (o : list log_entry) :
  logs k b o -> logs (console_log line ;;; k) b (Out line :: o).
Proof. intros H. apply (logs_bind _ _ tt b [Out line] o); [apply logs_emit | exact H]. Qed.

Lemma logs_then_of_logs {A} (m : M A) (a : A) (out : list log_entry) :
  logs m a out -> logs_then m (Ret a).
Proof. intros H. by exists out. Qed.

Lemma logs_then_ret {A} (a : A) : logs_then (ret a) (Ret a).
Proof. eapply logs_then_of_logs, logs_ret. Qed.

Lemma logs_then_throw {A} (e : exn) : logs_then (@throw A e) (Throw e).
Proof. exists []. intros [c r]. unfold throw. simpl. by rewrite app_nil_r. Qed.

Lemma logs_then_bind {A B} (m : M A) (k : A -> M B) (a : A) (r : outcome B) :
  logs_then m (Ret a) -> logs_then (k a) r -> logs_then (bind m k) r.
Proof.
  intros [o1 H1] [o2 H2]. exists (o1 ++ o2). intros w.
  unfold bind. rewrite H1, H2. simpl. by rewrite app_assoc.
Qed.

Lemma logs_then_bind_throw {A B} (m : M A) (k : A -> M B) (e : exn) :
  logs_then m (Throw e) -> logs_then (bind m k) (Throw e).
Proof.
  intros [o1 H1]. exists o1. intros w. unfold bind. by rewrite H1.
Qed.

Lemma logs_then_log {B} (line : string) (k : M B) (r : outcome B) :
  logs_then k r -> logs_then (console_log line ;;; k) r.
Proof.
  intros H. eapply logs_then_bind; [|exact H].
  eapply logs_then_of_logs, logs_emit.
Qed.

(** ** Template literals, one console call each *)

Lemma templates_all (ts : list (option string)) (ls : list string) :
  all_lines ts = Some ls -> logs (for_each log_template ts) tt (map Out ls).
Proof.
  revert ls. induction ts as [|[s|] ts IH]; intros ls Hls; simpl in *.
  - injection Hls as <-. apply logs_ret.
  - destruct (all_lines ts) as [ls'|]; [|discriminate]. injection Hls as <-.
    simpl. apply logs_log_then. by apply IH.
  - discriminate.
Qed.

Lemma templates_none (ts : list (option string)) :
  all_lines ts = None -> logs_then (for_each log_template ts) (Throw coercion_error).
Proof.
  induction ts as [|[s|] ts IH]; intros Hls; simpl in *.
  - discriminate.
  - apply logs_then_log. apply IH. by destruct (all_lines ts).
  - apply logs_then_bind_throw, logs_then_throw.
Qed.

Lemma for_each_app {A} (f : A -> M unit) (l1 l2 : list A) (w : world) :
  for_each f (l1 ++ l2) w = (for_each f l1 ;;; for_each f l2) w.
Proof.
  revert w. induction l1 as [|x l1 IH]; intros w; simpl.
  - reflexivity.
  - unfold bind. destruct (f x w) as [[[]|e] w']; [apply IH | reflexivity].
Qed.

Lemma emits_nil : emits (ret tt) [].
Proof. intros w. reflexivity. Qed.

Lemma emits_template (t : option string) : emits (log_template t) [t].
Proof.
  intros w. simpl. unfold bind.
  by destruct (log_template t w) as [[[]|e] w'].
Qed.

Lemma emits_log (line : string) : emits (console_log line) [Some line].
Proof. apply (emits_template (Some line)). Qed.

Lemma emits_bind (m1 m2 : M unit) (t1 t2 : list (option string)) :
  emits m1 t1 -> emits m2 t2 -> emits (m1 ;;; m2) (t1 ++ t2).
Proof.
  intros H1 H2 w. rewrite for_each_app. unfold bind. rewrite H1.
  destruct (for_each log_template t1 w) as [[[]|e] w']; [apply H2 | reflexivity].
Qed.

Lemma emits_cons (t : option string) (m : M unit) (ts : list (option string)) :
  emits m ts -> emits (log_template t ;;; m) (t :: ts).
Proof. intros H. apply (emits_bind _ _ [t] ts); [apply emits_template | exact H]. Qed.

Lemma emits_log_cons (line : string) (m : M unit) (ts : list (option string)) :
  emits m ts -> emits (console_log line ;;; m) (Some line :: ts).
Proof. apply (emits_cons (Some line)). Qed.

Lemma emits_for_each {A} (g : A -> option string) (l : list A) :
  emits (for_each (fun x => log_template (g x)) l) (map g l).
Proof. intros w. induction l as [|x l IH] in w |- *; simpl; [done|].
  unfold bind. destruct (log_template (g x) w) as [[[]|e] w']; [apply IH | done].
Qed.

Lemma emits_for_each_if {A} (c : A -> bool) (g : A -> option string) (l : list A) :
  emits (for_each (fun x => if c x then log_template (g x) else ret tt) l)
        (map g (List.filter c l)).
Proof.
  intros w. induction l as [|x l IH] in w |- *; simpl; [done|].
  destruct (c x); simpl; unfold bind.
  - destruct (log_template (g x) w) as [[[]|e] w']; [apply IH | done].
  - apply IH.
Qed.

Lemma emits_logs (m : M unit) (ts : list (option string)) (ls : list string) :
  emits m ts -> all_lines ts = Some ls -> logs m tt (map Out ls).
Proof. intros Hm Hls w. rewrite Hm. by apply templates_all. Qed.

Lemma emits_throws (m : M unit) (ts : list (option string)) :
  emits m ts -> all_lines ts = None -> logs_then m (Throw coercion_error).
Proof.
  intros Hm Hls. destruct (templates_none ts Hls) as [out Hout].
  exists out. intros w. by rewrite Hm.
Qed.

(** ** The two branches of the formatter *)

Lemma log_logData_emits (logData : jsval) :
  emits (log_logData logData)
    match logData with
    | Some ld =>
        if truthy (Some ld) then
          Some (nl +:+ "📋 Log Data:") :: map logData_line (as_array ld)
        else []
    | None => []
    end.
Proof.
  unfold log_logData. destruct logData as [ld|]; [|apply emits_nil].
  destruct (truthy (Some ld)); [|apply emits_nil].
  apply emits_log_cons, emits_for_each.
Qed.

Lemma log_newEvent_emits (d : tree) :
  emits (log_newEvent (Some d)) (event_templates d).
Proof.
  unfold log_newEvent, event_templates, deref.
  apply emits_log_cons. rewrite bind_ret_l.
  do 4 apply emits_cons. apply log_logData_emits.
Qed.

Lemma log_notifyUpdated_emits (accessPoint : jsval) (st : status) :
  extractFirmwareStatus accessPoint = Ret (Some st) ->
  emits (log_notifyUpdated accessPoint) (status_templates st).
Proof.
  intros Hst. unfold log_notifyUpdated, status_templates, deref, lift.
  intros w. unfold bind at 1. rewrite Hst. revert w.
  change (emits
    (console_log "📱 Access Point Information:" ;;;
     let* st0 := ret st in
     log_template (tpl "   ID: " (Some (accessPointId st0))) ;;;
     log_template (tpl "   Serial: " (Some (serialNumber st0))) ;;;
     log_template (tpl "   Online: " (Some (online st0))) ;;;
     log_template (tpl "   Sync Status: " (Some (syncStatus st0))) ;;;
     console_log (nl +:+ "🔧 Firmware Status:") ;;;
     log_template (tpl "   Upgrade Status: " (Some (firmwareUpgradeStatus st0))) ;;;
     log_template (tpl "   Last Update: " (Some (timeOfLastFirmwareUpgrade st0))) ;;;
     (if Nat.ltb 0 (length (own_keys (own (attributes st0)))) then
        console_log (nl +:+ "📊 Attributes:") ;;;
        for_each (log_firmware_attr (attributes st0)) firmwareAttrs ;;;
        for_each (log_other_attr (attributes st0)) (own_keys (own (attributes st0)))
      else ret tt))
    ([ Some "📱 Access Point Information:";
       tpl "   ID: " (Some (accessPointId st));
       tpl "   Serial: " (Some (serialNumber st));
       tpl "   Online: " (Some (online st));
       tpl "   Sync Status: " (Some (syncStatus st));
       Some (nl +:+ "🔧 Firmware Status:");
       tpl "   Upgrade Status: " (Some (firmwareUpgradeStatus st));
       tpl "   Last Update: " (Some (timeOfLastFirmwareUpgrade st)) ] ++
     if Nat.ltb 0 (length (own_keys (own (attributes st)))) then
       Some (nl +:+ "📊 Attributes:") ::
       map (attr_line (attributes st))
           (List.filter (fun key => truthy (obj_read (attributes st) key)) firmwareAttrs) ++
       map (attr_line (attributes st))
           (List.filter (fun key => negb (existsb (String.eqb key) firmwareAttrs))
                        (own_keys (own (attributes st))))
     else [])).
  apply emits_log_cons. rewrite bind_ret_l.
  do 4 apply emits_cons. apply emits_log_cons. do 2 apply emits_cons.
  destruct (Nat.ltb 0 (length (own_keys (own (attributes st))))); [|apply emits_nil].
  apply emits_log_cons. apply emits_bind.
  - apply (emits_for_each_if (fun key => truthy (obj_read (attributes st) key))).
  - apply (emits_for_each_if (fun key => negb (existsb (String.eqb key) firmwareAttrs))).
Qed.

(** ** Values without a property named [toString] *)

Lemma plain_toStr : forall t, plain t = true -> is_Some (toStr t).
Proof.
  fix IH 1. intros [s|props|items] Hp.
  - simpl. eauto.
  - simpl in *. destruct (assoc "toString" props); [discriminate | eauto].
  - simpl in *.
    assert (H : is_Some
      ((fix go (l : list tree) : option (list string) :=
          match l with
          | [] => Some []
          | x :: l' =>
              match toStr x with
              | Some s => match go l' with Some ss => Some (s :: ss) | None => None end
              | None => None
              end
          end) items)).
    { induction items as [|x items IHitems]; [eauto|].
      apply andb_true_iff in Hp as [Hx Hrest].
      destruct (IH x Hx) as [s Hs]. destruct (IHitems Hrest) as [ss Hss].
      rewrite Hs, Hss. eauto. }
    destruct H as [ss ->]. simpl. eauto.
Qed.

Lemma plain_render (v : jsval) : plain_val v = true -> is_Some (render v).
Proof. destruct v as [t|]; simpl; [apply plain_toStr | eauto]. Qed.

Lemma plain_tpl (prefix : string) (v : jsval) :
  plain_val v = true -> is_Some (tpl prefix v).
Proof. intros H. unfold tpl. destruct (plain_render v H) as [s ->]. simpl. eauto. Qed.

Lemma plain_assoc (props : list (string * tree)) (k : string) (v : tree) :
  (fix go (ps : list (string * tree)) : bool :=
     match ps with
     | [] => true
     | (_, v) :: ps' => plain v && go ps'
     end) props = true ->
  assoc k props = Some v -> plain v = true.
Proof.
  induction props as [|[k' v'] props IH]; simpl; [discriminate|].
  intros Hp Hk. apply andb_true_iff in Hp as [Hv Hrest].
  destruct (String.eqb k k'); [by injection Hk as <- | by apply IH].
Qed.

Lemma plain_get (t : tree) (k : string) :
  plain t = true -> plain_val (get t k) = true.
Proof.
  intros Hp. destruct t as [s|props|items]; simpl; [done| |done].
  destruct (assoc k props) as [v|] eqn:Hk; [|done].
  simpl in Hp. destruct (assoc "toString" props); [discriminate|].
  by eapply plain_assoc.
Qed.

Lemma plain_get_opt (v : jsval) (k : string) :
  plain_val v = true -> plain_val (get_opt v k) = true.
Proof. destruct v as [t|]; [apply plain_get | done]. Qed.

Lemma plain_jor (a b : jsval) :
  plain_val a = true -> plain_val b = true -> plain_val (jor a b) = true.
Proof. intros Ha Hb. unfold jor. by destruct (truthy a). Qed.

Lemma plain_or_lit (v : jsval) (lit : string) :
  plain_val v = true -> plain (or_lit v lit) = true.
Proof.
  intros Hv. unfold or_lit. destruct v as [t|]; [|done].
  by destruct (truthy (Some t)).
Qed.

Lemma plain_as_array (t : tree) :
  plain t = true -> Forall (fun x => plain x = true) (as_array t).
Proof.
  intros Hp. destruct t as [s|props|items]; simpl; [by repeat constructor| by repeat constructor|].
  simpl in Hp. induction items as [|x items IH]; [constructor|].
  apply andb_true_iff in Hp as [Hx Hrest]. constructor; [done | by apply IH].
Qed.

Lemma plain_prop_set (k : string) (v : jsval) (ps : list (string * jsval)) :
  plain_val v = true ->
  Forall (fun kv => plain_val kv.2 = true) ps ->
  Forall (fun kv => plain_val kv.2 = true) (prop_set k v ps).
Proof.
  intros Hv. induction ps as [|[k' v'] ps IH]; intros Hps; simpl.
  - by repeat constructor.
  - apply Forall_cons in Hps as [Hv' Hps].
    destruct (String.eqb k k'); constructor; auto.
Qed.

Lemma plain_assign (key : string) (value : jsval) (o : js_object) :
  plain_val value = true -> plain_object o -> plain_object (assign key value o).
Proof.
  intros Hv [Hown Hproto]. unfold assign.
  destruct (String.eqb key "__proto__").
  - destruct value as [[s|props|items]|]; by split.
  - split; [by apply plain_prop_set | done].
Qed.

Lemma plain_attr_step (o : js_object) (attr : tree) :
  plain attr = true -> plain_object o ->
  exists o', attr_step o attr = Ret o' /\ plain_object o'.
Proof.
  intros Ha Ho. unfold attr_step.
  assert (Hn : plain_val (attr_name attr) = true).
  { unfold attr_name. repeat apply plain_jor; by apply plain_get. }
  assert (Hv : plain_val (attr_value attr) = true).
  { unfold attr_value. repeat apply plain_jor; by apply plain_get. }
  destruct (truthy (attr_name attr)); [|eauto].
  destruct (plain_render _ Hn) as [key ->].
  eexists. split; [reflexivity|]. by apply plain_assign.
Qed.

Lemma plain_fold (entries : list tree) (o : js_object) :
  Forall (fun x => plain x = true) entries -> plain_object o ->
  exists o', fold_outcome attr_step o entries = Ret o' /\ plain_object o'.
Proof.
  revert o. induction entries as [|e entries IH]; intros o He Ho; simpl; [eauto|].
  apply Forall_cons in He as [He Hrest].
  destruct (plain_attr_step o e He Ho) as (o1 & -> & Ho1). by apply IH.
Qed.

Lemma plain_obj_read (o : js_object) (key : string) :
  plain_object o -> plain_val (obj_read o key) = true.
Proof.
  intros [Hown Hproto]. unfold obj_read.
  destruct (assoc key (own o)) as [v|] eqn:Hk.
  - clear Hproto. induction (own o) as [|[k' v'] ps IH]; [discriminate|].
    apply Forall_cons in Hown as [Hv' Hps]. simpl in Hk.
    destruct (String.eqb key k'); [by injection Hk as <- | by apply IH].
  - destruct (proto o) as [t|]; [by apply plain_get | done].
Qed.

Lemma all_lines_Some (ts : list (option string)) :
  Forall is_Some ts -> is_Some (all_lines ts).
Proof.
  induction 1 as [|t ts [s ->] _ [ls IH]]; simpl; [eauto|].
  rewrite IH. simpl. eauto.
Qed.

Lemma plain_empty_object : plain_object empty_object.
Proof. by split. Qed.

Lemma plain_extract (ap : tree) :
  truthy (Some ap) = true -> plain ap = true ->
  exists st, extractFirmwareStatus (Some ap) = Ret (Some st) /\
             Forall (fun kf => plain kf.2 = true) (scalar_fields st) /\
             plain_object (attributes st).
Proof.
  intros Ht Hp. unfold extractFirmwareStatus. rewrite Ht. simpl negb. cbv iota.
  assert (Hattrs : exists o,
    (if truthy (get ap "accessPointAttributes") &&
        truthy (get_opt (get ap "accessPointAttributes") "attributes")
     then match get_opt (get ap "accessPointAttributes") "attributes" with
          | Some attrs => normalize_attributes attrs
          | None => Ret empty_object
          end
     else Ret empty_object) = Ret o /\ plain_object o).
  { destruct (_ && _); [|exists empty_object; split; [done | apply plain_empty_object]].
    pose proof (plain_get_opt _ "attributes" (plain_get ap "accessPointAttributes" Hp)) as Ha.
    destruct (get_opt (get ap "accessPointAttributes") "attributes") as [attrs|];
      [|exists empty_object; split; [done | apply plain_empty_object]].
    apply plain_fold; [by apply plain_as_array | apply plain_empty_object]. }
  destruct Hattrs as (o & -> & Ho). cbv zeta.
  eexists. split; [reflexivity|]. split; [|exact Ho].
  unfold scalar_fields. cbn [accessPointId serialNumber online syncStatus
                             firmwareUpgradeStatus timeOfLastFirmwareUpgrade].
  repeat constructor; simpl; by apply plain_or_lit, plain_get.
Qed.

Lemma plain_status_printable (ap : tree) :
  truthy (Some ap) = true -> plain ap = true -> status_printable (Some ap) = true.
Proof.
  intros Ht Hp. unfold status_printable.
  destruct (plain_extract ap Ht Hp) as (st & -> & Hf & Ho).
  apply bool_decide_eq_true. unfold status_lines.
  assert (H : is_Some (all_lines (status_templates st))).
  { apply all_lines_Some. unfold status_templates, scalar_fields in *.
    apply Forall_cons in Hf as [H1 Hf]. apply Forall_cons in Hf as [H2 Hf].
    apply Forall_cons in Hf as [H3 Hf]. apply Forall_cons in Hf as [H4 Hf].
    apply Forall_cons in Hf as [H5 Hf]. apply Forall_cons in Hf as [H6 _].
    simpl in H1, H2, H3, H4, H5, H6.
    apply Forall_app. split.
    - repeat constructor; try (by apply plain_tpl); eauto.
    - destruct (Nat.ltb 0 _); [|constructor].
      constructor; [eauto|]. apply Forall_app. split.
      + apply Forall_forall. intros t Ht'. apply list_elem_of_fmap in Ht' as (key & -> & _).
        by apply plain_tpl, plain_obj_read.
      + apply Forall_forall. intros t Ht'. apply list_elem_of_fmap in Ht' as (key & -> & _).
        by apply plain_tpl, plain_obj_read. }
  destruct H as [ls ->]. simpl. eauto.
Qed.

Lemma plain_logData_line (item : tree) :
  plain item = true -> is_Some (logData_line item).
Proof.
  intros Hp. unfold logData_line.
  destruct (plain_toStr (or_lit (get item "key") "N/A")) as [k ->].
  { by apply plain_or_lit, plain_get. }
  apply plain_tpl. by apply plain_or_lit, plain_get.
Qed.

Lemma plain_event_printable (d : tree) :
  plain d = true -> event_printable (Some d) = true.
Proof.
  intros Hp. unfold event_printable. apply bool_decide_eq_true. unfold event_lines.
  assert (H : is_Some (all_lines (event_templates d))).
  { apply all_lines_Some. unfold event_templates. apply Forall_app. split.
    - repeat constructor; eauto; apply plain_tpl; simpl; apply plain_or_lit;
        try apply plain_get_opt; by apply plain_get.
    - pose proof (plain_get d "logData" Hp) as Hld.
      destruct (get d "logData") as [ld|]; [|constructor].
      destruct (truthy (Some ld)); [|constructor].
      constructor; [eauto|].
      apply Forall_forall. intros t Ht. apply list_elem_of_fmap in Ht as (item & -> & Hin).
      apply plain_logData_line.
      pose proof (plain_as_array ld Hld) as Hall.
      rewrite Forall_forall in Hall. by apply Hall. }
  destruct H as [ls ->]. simpl. eauto.
Qed.

(** ** How the two branches end *)

Lemma logs_then_lift_throw {A B} (e : exn) (k : A -> M B) :
  logs_then (bind (lift (Throw e)) k) (Throw e).
Proof.
  exists []. intros [c r]. unfold bind, lift. simpl. by rewrite app_nil_r.
Qed.

Lemma log_notifyUpdated_cases (accessPoint : jsval) :
  (status_printable accessPoint = true /\
   exists st ls, extractFirmwareStatus accessPoint = Ret (Some st) /\
                 status_lines st = Some ls /\
                 logs (log_notifyUpdated accessPoint) tt ls) \/
  (status_printable accessPoint = false /\
   exists e, logs_then (log_notifyUpdated accessPoint) (Throw e)).
Proof.
  unfold status_printable.
  destruct (extractFirmwareStatus accessPoint) as [[st|]|e] eqn:Hst.
  - pose proof (log_notifyUpdated_emits accessPoint st Hst) as Hem.
    destruct (all_lines (status_templates st)) as [ls|] eqn:Hls.
    + left. split.
      { apply bool_decide_eq_true. unfold status_lines. rewrite Hls. simpl. eauto. }
      exists st, (map Out ls). split; [done|].
      split; [unfold status_lines; by rewrite Hls|].
      by eapply emits_logs.
    + right. split.
      { apply bool_decide_eq_false. unfold status_lines. rewrite Hls. by intros [? ?]. }
      eexists. by eapply emits_throws.
  - right. split; [done|]. eexists.
    unfold log_notifyUpdated.
    assert (H : forall w, bind (lift (extractFirmwareStatus accessPoint))
                   (fun status =>
                      console_log "📱 Access Point Information:" ;;;
                      let* st := deref "null (reading 'accessPointId')" status in
                      log_template (tpl "   ID: " (Some (accessPointId st))) ;;;
                      log_template (tpl "   Serial: " (Some (serialNumber st))) ;;;
                      log_template (tpl "   Online: " (Some (online st))) ;;;
                      log_template (tpl "   Sync Status: " (Some (syncStatus st))) ;;;
                      console_log (nl +:+ "🔧 Firmware Status:") ;;;
                      log_template (tpl "   Upgrade Status: " (Some (firmwareUpgradeStatus st))) ;;;
                      log_template (tpl "   Last Update: " (Some (timeOfLastFirmwareUpgrade st))) ;;;
                      if Nat.ltb 0 (length (own_keys (own (attributes st)))) then
                        console_log (nl +:+ "📊 Attributes:") ;;;
                        for_each (log_firmware_attr (attributes st)) firmwareAttrs ;;;
                        for_each (log_other_attr (attributes st))
                                 (own_keys (own (attributes st)))
                      else ret tt) w =
                 (console_log "📱 Access Point Information:" ;;;
                  let* st := @deref status "null (reading 'accessPointId')" None in
                  ret tt) w).
    { intros w. unfold bind at 1, lift. by rewrite Hst. }
    destruct (logs_then_log "📱 Access Point Information:"
                (let* st := @deref status "null (reading 'accessPointId')" None in ret tt)
                (Throw (TypeError ("Cannot read properties of " +:+
                                   "null (reading 'accessPointId')"))))
      as [out Hout].
    { apply logs_then_bind_throw, logs_then_throw. }
    exists out. intros w. rewrite H. apply Hout.
  - right. split; [done|]. exists e.
    exists []. intros [c r]. unfold log_notifyUpdated, bind, lift. rewrite Hst.
    simpl. by rewrite app_nil_r.
Qed.

Lemma log_newEvent_cases (logEntry : jsval) :
  (event_printable logEntry = true /\
   exists d ls, logEntry = Some d /\ event_lines d = Some ls /\
                logs (log_newEvent logEntry) tt ls) \/
  (event_printable logEntry = false /\
   exists e, logs_then (log_newEvent logEntry) (Throw e)).
Proof.
  unfold event_printable. destruct logEntry as [d|].
  - pose proof (log_newEvent_emits d) as Hem.
    destruct (all_lines (event_templates d)) as [ls|] eqn:Hls.
    + left. split.
      { apply bool_decide_eq_true. unfold event_lines. rewrite Hls. simpl. eauto. }
      exists d, (map Out ls). split; [done|].
      split; [unfold event_lines; by rewrite Hls|].
      by eapply emits_logs.
    + right. split.
      { apply bool_decide_eq_false. unfold event_lines. rewrite Hls. by intros [? ?]. }
      eexists. by eapply emits_throws.
  - right. split; [done|]. eexists. unfold log_newEvent.
    apply logs_then_log. apply logs_then_bind_throw, logs_then_throw.
Qed.

(** ** The handler, branch by branch *)

Section Handler.

Variable now : string.
Variable parse : Xml2js.ParserOptions -> string -> outcome (option tree).

Lemma logCallback_logs (type : string) (data : jsval) (o : list log_entry) :
  logs (if String.eqb type "notifyUpdated" then log_notifyUpdated data
        else if String.eqb type "newEvent" then log_newEvent data
        else ret tt) tt o ->
  logs (logCallback now type data) tt (banner now type ++ o ++ footer).
Proof.
  intros H. unfold logCallback, banner.
  do 3 apply logs_log_then.
  apply (logs_bind _ _ tt tt); [exact H | apply logs_emit].
Qed.

Lemma logCallback_throws (type : string) (data : jsval) (e : exn) :
  logs_then (if String.eqb type "notifyUpdated" then log_notifyUpdated data
             else if String.eqb type "newEvent" then log_newEvent data
             else ret tt) (Throw e) ->
  logs_then (logCallback now type data) (Throw e).
Proof.
  intros H. unfold logCallback.
  do 3 apply logs_then_log. by apply logs_then_bind_throw.
Qed.

Lemma dispatch_notifyUpdated_logs (b : jsval) (st : status) (ls : list log_entry) :
  truthy (get_opt b "notifyUpdated") = true ->
  extractFirmwareStatus (get_opt (get_opt b "notifyUpdated") "accessPoint")
    = Ret (Some st) ->
  status_lines st = Some ls ->
  logs (dispatch now b) notifyUpdated_envelope
       (banner now "notifyUpdated" ++ ls ++ footer).
Proof.
  intros Hn Hst Hls. unfold dispatch. rewrite Hn.
  rewrite <- (app_nil_r (banner now "notifyUpdated" ++ ls ++ footer)).
  apply (logs_bind _ _ tt); [|apply logs_ret].
  apply logCallback_logs. simpl.
  unfold status_lines in Hls.
  destruct (all_lines (status_templates st)) as [ss|] eqn:Hss; [|discriminate].
  injection Hls as <-.
  eapply emits_logs; [by apply log_notifyUpdated_emits | done].
Qed.

Lemma dispatch_newEvent_logs (b : jsval) (d : tree) (ls : list log_entry) :
  truthy (get_opt b "notifyUpdated") = false ->
  truthy (get_opt b "newEvent") = true ->
  get_opt (get_opt b "newEvent") "logEntry" = Some d ->
  event_lines d = Some ls ->
  logs (dispatch now b) newEvent_envelope (banner now "newEvent" ++ ls ++ footer).
Proof.
  intros Hn He Hd Hls. unfold dispatch. rewrite Hn, He, Hd.
  rewrite <- (app_nil_r (banner now "newEvent" ++ ls ++ footer)).
  apply (logs_bind _ _ tt); [|apply logs_ret].
  apply logCallback_logs. simpl.
  unfold event_lines in Hls.
  destruct (all_lines (event_templates d)) as [ss|] eqn:Hss; [|discriminate].
  injection Hls as <-.
  eapply emits_logs; [apply log_newEvent_emits | done].
Qed.

Lemma dispatch_notifyUpdated (b : jsval) :
  truthy (get_opt b "notifyUpdated") = true ->
  status_printable (get_opt (get_opt b "notifyUpdated") "accessPoint") = true ->
  logs_then (dispatch now b) (Ret notifyUpdated_envelope).
Proof.
  intros Hn Hp.
  destruct (log_notifyUpdated_cases (get_opt (get_opt b "notifyUpdated") "accessPoint"))
    as [(_ & st & ls & Hst & Hls & _)|(Hf & _)]; [|congruence].
  eapply logs_then_of_logs. by eapply dispatch_notifyUpdated_logs.
Qed.

Lemma dispatch_notifyUpdated_throws (b : jsval) :
  truthy (get_opt b "notifyUpdated") = true ->
  status_printable (get_opt (get_opt b "notifyUpdated") "accessPoint") = false ->
  exists e, logs_then (dispatch now b) (Throw e).
Proof.
  intros Hn Hp.
  destruct (log_notifyUpdated_cases (get_opt (get_opt b "notifyUpdated") "accessPoint"))
    as [(Ht & _)|(_ & e & He)]; [congruence|].
  exists e. unfold dispatch. rewrite Hn.
  apply logs_then_bind_throw, logCallback_throws. exact He.
Qed.

Lemma dispatch_newEvent (b : jsval) :
  truthy (get_opt b "notifyUpdated") = false ->
  truthy (get_opt b "newEvent") = true ->
  event_printable (get_opt (get_opt b "newEvent") "logEntry") = true ->
  logs_then (dispatch now b) (Ret newEvent_envelope).
Proof.
  intros Hn He Hp.
  destruct (log_newEvent_cases (get_opt (get_opt b "newEvent") "logEntry"))
    as [(_ & d & ls & Hd & Hls & _)|(Hf & _)]; [|congruence].
  eapply logs_then_of_logs. by eapply dispatch_newEvent_logs.
Qed.

Lemma dispatch_newEvent_throws (b : jsval) :
  truthy (get_opt b "notifyUpdated") = false ->
  truthy (get_opt b "newEvent") = true ->
  event_printable (get_opt (get_opt b "newEvent") "logEntry") = false ->
  exists e, logs_then (dispatch now b) (Throw e).
Proof.
  intros Hn He Hp.
  destruct (log_newEvent_cases (get_opt (get_opt b "newEvent") "logEntry"))
    as [(Ht & _)|(_ & e & Hthrow)]; [congruence|].
  exists e. unfold dispatch. rewrite Hn, He.
  apply logs_then_bind_throw, logCallback_throws. exact Hthrow.
Qed.

Lemma dispatch_unknown (b : jsval) :
  truthy (get_opt b "notifyUpdated") = false ->
  truthy (get_opt b "newEvent") = false ->
  logs_then (dispatch now b) (Ret unknown_envelope).
Proof.
  intros Hn He. unfold dispatch. rewrite Hn, He.
  apply logs_then_log.
  eapply logs_then_bind; [eapply logs_then_of_logs, logs_emit | apply logs_then_ret].
Qed.

Lemma parseXML_resolved (s : string) (v : option tree) (w : world) :
  parse parserOptions s = Ret v -> parseXML parse s w = (Ret v, w).
Proof. intros H. unfold parseXML, try_catch. by rewrite H. Qed.

Lemma parseXML_thrown (s : string) (e : exn) (w : world) :
  parse parserOptions s = Throw e ->
  parseXML parse s w =
  (Ret None, {| console := console w ++ [Err "XML Parse Error:" e]; res := res w |}).
Proof. intros H. unfold parseXML, try_catch. by rewrite H. Qed.

(** Once the body has parsed to a truthy tree, the response is decided by
    [dispatch] on the envelope's body alone. *)
Lemma respond_dispatched (req : request) (p : tree) (envelope : string) :
  parse parserOptions (body req) = Ret (Some p) ->
  truthy (Some p) = true ->
  logs_then (dispatch now (soap_body p)) (Ret envelope) ->
  respond now parse req = acknowledged envelope.
Proof.
  intros Hp Ht [out Hd].
  unfold respond, post_handler, post_try, try_catch, bind.
  simpl. rewrite (parseXML_resolved _ _ _ Hp), Ht. simpl.
  by rewrite Hd.
Qed.

(** The handler reads the parsed tree only through [dispatch]: two parse
    results on which [dispatch] agrees give the same response and the
    same console. *)
Lemma post_handler_dispatch_ext
    (parse' : Xml2js.ParserOptions -> string -> outcome (option tree))
    (req : request) (p p' : tree) (w : world) :
  parse parserOptions (body req) = Ret (Some p) ->
  parse' parserOptions (body req) = Ret (Some p') ->
  truthy (Some p) = true -> truthy (Some p') = true ->
  (forall w', dispatch now (soap_body p) w' = dispatch now (soap_body p') w') ->
  post_handler now parse req w = post_handler now parse' req w.
Proof.
  intros Hp Hp' Ht Ht' Hd.
  unfold post_handler, post_try, try_catch, bind. simpl.
  unfold parseXML, try_catch. rewrite Hp, Hp', Ht, Ht'. simpl.
  by rewrite Hd.
Qed.

End Handler.

Lemma soap_body_truthy (p : tree) :
  is_Some (soap_body p) -> truthy (Some p) = true.
Proof. destruct p; simpl; [by intros [? ?] | done | done]. Qed.

Lemma get_opt_truthy_is_Some (v : jsval) (k : string) :
  truthy (get_opt v k) = true -> is_Some v.
Proof. destruct v; [eauto | discriminate]. Qed.

Lemma truthy_is_Some (v : jsval) : truthy v = true -> is_Some v.
Proof. destruct v; [eauto | discriminate]. Qed.

Lemma truthy_None_eq (v : jsval) : v = None -> truthy v = false.
Proof. by intros ->. Qed.

Lemma extractFirmwareStatus_falsy (accessPoint : jsval) :
  truthy accessPoint = false -> extractFirmwareStatus accessPoint = Ret None.
Proof.
  intros H. unfold extractFirmwareStatus.
  destruct accessPoint as [ap|]; [|done]. by rewrite H.
Qed.

Lemma status_printable_truthy (accessPoint : jsval) :
  status_printable accessPoint = true -> truthy accessPoint = true.
Proof.
  unfold status_printable. destruct (truthy accessPoint) eqn:Ht; [done|].
  by rewrite (extractFirmwareStatus_falsy _ Ht).
Qed.

(** From the outcome of [dispatch] to the response: the handler itself
    returns normally in either case. *)
Lemma respond_of_dispatch
    (now : string) (parse : Xml2js.ParserOptions -> string -> outcome (option tree))
    (req : request) (p : tree) (r : outcome string) :
  parse parserOptions (body req) = Ret (Some p) ->
  truthy (Some p) = true ->
  logs_then (dispatch now (soap_body p)) r ->
  (post_handler now parse req fresh).1 = Ret tt /\
  respond now parse req = response_of r.
Proof.
  intros Hp Ht [out Hd].
  unfold respond, post_handler, post_try, try_catch, bind. simpl.
  rewrite (parseXML_resolved _ _ _ _ Hp), Ht. simpl. rewrite Hd.
  by destruct r.
Qed.

(** When the parse gives nothing to dispatch on, the answer is 400. *)
Lemma respond_unparsed
    (now : string) (parse : Xml2js.ParserOptions -> string -> outcome (option tree))
    (req : request) :
  (forall p, parse parserOptions (body req) = Ret (Some p) -> truthy (Some p) = false) ->
  (post_handler now parse req fresh).1 = Ret tt /\
  respond now parse req = invalid_soap.
Proof.
  intros Hno.
  unfold respond, post_handler, post_try, try_catch, bind. simpl.
  destruct (parse parserOptions (body req)) as [[p|]|e] eqn:Hp.
  - by rewrite (parseXML_resolved _ _ _ _ Hp), (Hno p eq_refl).
  - by rewrite (parseXML_resolved _ _ _ _ Hp).
  - by rewrite (parseXML_thrown _ _ _ _ Hp).
Qed.

Lemma logged_of_dispatch
    (now : string) (parse : Xml2js.ParserOptions -> string -> outcome (option tree))
    (req : request) (p : tree) (envelope : string) (o : list log_entry) :
  parse parserOptions (body req) = Ret (Some p) ->
  truthy (Some p) = true ->
  logs (dispatch now (soap_body p)) envelope o ->
  logged now parse req = request_lines req ++ o.
Proof.
  intros Hp Ht Hd.
  unfold logged, post_handler, post_try, try_catch, bind. simpl.
  rewrite (parseXML_resolved _ _ _ _ Hp), Ht. simpl. by rewrite Hd.
Qed.

(** The branch taken by [dispatch], and how it ends, is decided by the
    truthiness of the two children and by whether the node below them can
    be logged to the end; the clock plays no part. *)
Lemma dispatch_cases (b : jsval) :
  let nu := get_opt b "notifyUpdated" in
  let ne := get_opt b "newEvent" in
  (truthy nu = true /\ status_printable (get_opt nu "accessPoint") = true /\
   forall now, logs_then (dispatch now b) (Ret notifyUpdated_envelope)) \/
  (truthy nu = true /\ status_printable (get_opt nu "accessPoint") = false /\
   exists e, forall now, logs_then (dispatch now b) (Throw e)) \/
  (truthy nu = false /\ truthy ne = true /\
   event_printable (get_opt ne "logEntry") = true /\
   forall now, logs_then (dispatch now b) (Ret newEvent_envelope)) \/
  (truthy nu = false /\ truthy ne = true /\
   event_printable (get_opt ne "logEntry") = false /\
   exists e, forall now, logs_then (dispatch now b) (Throw e)) \/
  (truthy nu = false /\ truthy ne = false /\
   forall now, logs_then (dispatch now b) (Ret unknown_envelope)).
Proof.
  intros nu ne.
  destruct (truthy nu) eqn:Hn.
  - destruct (status_printable (get_opt nu "accessPoint")) eqn:Ha.
    + left. repeat split. intros now. by apply dispatch_notifyUpdated.
    + right; left. repeat split.
      destruct (log_notifyUpdated_cases (get_opt nu "accessPoint"))
        as [(Ht & _)|(_ & e & He)]; [congruence|].
      exists e. intros now. unfold dispatch. fold nu. rewrite Hn.
      apply logs_then_bind_throw, logCallback_throws. exact He.
  - destruct (truthy ne) eqn:He.
    + destruct (event_printable (get_opt ne "logEntry")) eqn:Hl.
      * right; right; left. repeat split. intros now. by apply dispatch_newEvent.
      * right; right; right; left. repeat split.
        destruct (log_newEvent_cases (get_opt ne "logEntry"))
          as [(Ht & _)|(_ & e & Hthrow)]; [congruence|].
        exists e. intros now. unfold dispatch. fold nu ne. rewrite Hn, He.
        apply logs_then_bind_throw, logCallback_throws. exact Hthrow.
    + right; right; right; right. repeat split. intros now.
      by apply dispatch_unknown.
Qed.

(** * Properties of the pipeline *)

(** ** C1: the StatusUpdate acknowledgement *)

(** C1, as stated, fails: the sample status notification parses, its Body
    has a [notifyUpdated] child, and the response body is not the
    single-line StatusUpdate template of the specification. *)
Lemma C1_counterexample :
  Samples.parser parserOptions (body (Samples.post (Samples.to_xml Samples.status_doc)))
    = Ret (Some (Xml2js.result_of parserOptions Samples.status_doc)) /\
  is_Some (get_opt (soap_body (Xml2js.result_of parserOptions Samples.status_doc))
                   "notifyUpdated") /\
  sent (respond Samples.clock Samples.parser
          (Samples.post (Samples.to_xml Samples.status_doc)))
    <> Some spec_StatusUpdate_template.
Proof.
  split; [by vm_compute|]. split; [vm_compute; eauto|].
  vm_compute. discriminate.
Qed.

(** Why the payload matters after all: an [id] element with a child named
    [toString] cannot be printed, and the notification is answered 500. *)
Example respond_status_with_toString :
  respond Samples.clock Samples.parser
    (Samples.post (Samples.to_xml Samples.status_with_toString)) = internal_error.
Proof. by vm_compute. Qed.

(** C1, amended: for every POST whose body parses and whose Body has a
    non-empty [notifyUpdated] child with a non-empty [accessPoint] in which
    no object has a property named [toString], the response is HTTP 200
    with the handler's StatusUpdate envelope, whatever else the payload
    holds; that envelope is the specification's single-line template with
    a line break and indentation between the elements. *)
Theorem C1_status_update_acknowledged
    (now : string) (parse : Xml2js.ParserOptions -> string -> outcome (option tree))
    (req : request) (p ap : tree) :
  parse parserOptions (body req) = Ret (Some p) ->
  truthy (get_opt (soap_body p) "notifyUpdated") = true ->
  get_opt (get_opt (soap_body p) "notifyUpdated") "accessPoint" = Some ap ->
  truthy (Some ap) = true ->
  plain ap = true ->
  respond now parse req = acknowledged notifyUpdated_envelope /\
  strip_layout notifyUpdated_envelope = spec_StatusUpdate_template.
Proof.
  intros Hp Hn Hap Ha Hplain. split; [|by vm_compute].
  eapply respond_dispatched; [exact Hp | |].
  - apply soap_body_truthy. by eapply get_opt_truthy_is_Some.
  - apply dispatch_notifyUpdated; [exact Hn|]. rewrite Hap.
    by apply plain_status_printable.
Qed.

Lemma C1_status_update_acknowledged_witness :
  let req := Samples.post (Samples.to_xml Samples.status_doc) in
  let p := Xml2js.result_of parserOptions Samples.status_doc in
  let ap := TObj [("id", TStr "AP-100");
                  ("accessPointAttributes",
                   TObj [("attributes",
                          TObj [("Name", TStr "FIRMWARE_VERSION");
                                ("Value", TStr "2.1.0")])])] in
  Samples.parser parserOptions (body req) = Ret (Some p) /\
  truthy (get_opt (soap_body p) "notifyUpdated") = true /\
  get_opt (get_opt (soap_body p) "notifyUpdated") "accessPoint" = Some ap /\
  plain ap = true /\
  respond Samples.clock Samples.parser req = acknowledged notifyUpdated_envelope.
Proof.
  intros req p ap.
  assert (Hp : Samples.parser parserOptions (body req) = Ret (Some p))
    by (vm_compute; reflexivity).
  assert (Hn : truthy (get_opt (soap_body p) "notifyUpdated") = true)
    by (vm_compute; reflexivity).
  assert (Hap : get_opt (get_opt (soap_body p) "notifyUpdated") "accessPoint" = Some ap)
    by (vm_compute; reflexivity).
  assert (Ha : truthy (Some ap) = true) by reflexivity.
  assert (Hplain : plain ap = true) by (vm_compute; reflexivity).
  split; [exact Hp|]. split; [exact Hn|]. split; [exact Hap|]. split; [exact Hplain|].
  exact (proj1 (C1_status_update_acknowledged Samples.clock Samples.parser req p ap
                  Hp Hn Hap Ha Hplain)).
Defined.

(** The worked example of the specification: access point [AP-100] with
    no other field and one [Name]/[Value] attribute. *)
Example extract_AP_100 :
  extractFirmwareStatus
    (get_opt (get_opt (soap_body (Xml2js.result_of parserOptions Samples.status_doc))
                      "notifyUpdated") "accessPoint") =
  Ret (Some {| accessPointId := TStr "AP-100";
               serialNumber := TStr "N/A";
               online := TStr "N/A";
               syncStatus := TStr "N/A";
               firmwareUpgradeStatus := TStr "N/A";
               timeOfLastFirmwareUpgrade := TStr "N/A";
               attributes := {| own := [("FIRMWARE_VERSION", Some (TStr "2.1.0"))];
                                proto := None |} |}).
Proof. by vm_compute. Qed.

Example respond_sample_event :
  respond Samples.clock Samples.parser (Samples.post (Samples.to_xml Samples.event_doc))
    = acknowledged newEvent_envelope.
Proof. by vm_compute. Qed.

(** ** C2: absent nodes *)

(** Supporting fact: a [notifyUpdated] whose [accessPoint] is absent or
    empty makes [extractFirmwareStatus] return [null], which [logCallback]
    dereferences; the handler's [catch] answers 500. *)
Lemma respond_without_accessPoint
    (now : string) (parse : Xml2js.ParserOptions -> string -> outcome (option tree))
    (req : request) (p : tree) :
  parse parserOptions (body req) = Ret (Some p) ->
  truthy (get_opt (soap_body p) "notifyUpdated") = true ->
  truthy (get_opt (get_opt (soap_body p) "notifyUpdated") "accessPoint") = false ->
  respond now parse req = internal_error.
Proof.
  intros Hp Hn Ha.
  assert (Ht : truthy (Some p) = true).
  { apply soap_body_truthy. by eapply get_opt_truthy_is_Some. }
  destruct (dispatch_notifyUpdated_throws now (soap_body p) Hn) as [e He].
  { unfold status_printable. by rewrite (extractFirmwareStatus_falsy _ Ha). }
  by destruct (respond_of_dispatch now parse req p _ Hp Ht He) as [_ ->].
Qed.

(** Supporting fact: a [newEvent] without a [logEntry] child makes
    [logCallback] read a property of [undefined]; the answer is 500. *)
Lemma respond_without_logEntry
    (now : string) (parse : Xml2js.ParserOptions -> string -> outcome (option tree))
    (req : request) (p : tree) :
  parse parserOptions (body req) = Ret (Some p) ->
  truthy (get_opt (soap_body p) "notifyUpdated") = false ->
  truthy (get_opt (soap_body p) "newEvent") = true ->
  get_opt (get_opt (soap_body p) "newEvent") "logEntry" = None ->
  respond now parse req = internal_error.
Proof.
  intros Hp Hn He Hl.
  assert (Ht : truthy (Some p) = true).
  { apply soap_body_truthy. by eapply get_opt_truthy_is_Some. }
  destruct (dispatch_newEvent_throws now (soap_body p) Hn He) as [e Hthrow].
  { by rewrite Hl. }
  by destruct (respond_of_dispatch now parse req p _ Hp Ht Hthrow) as [_ ->].
Qed.

(** Supporting fact: inside a present access point every absent scalar
    field reads as the placeholder and absent attributes as the empty
    object. *)
Lemma extractFirmwareStatus_placeholders (ap : tree) (st : status) :
  extractFirmwareStatus (Some ap) = Ret (Some st) ->
  (get ap "id" = None -> accessPointId st = TStr "N/A") /\
  (get ap "serialNumber" = None -> serialNumber st = TStr "N/A") /\
  (get ap "online" = None -> online st = TStr "N/A") /\
  (get ap "syncStatus" = None -> syncStatus st = TStr "N/A") /\
  (get ap "firmwareUpgradeStatus" = None -> firmwareUpgradeStatus st = TStr "N/A") /\
  (get ap "timeOfLastFirmwareUpgrade" = None ->
   timeOfLastFirmwareUpgrade st = TStr "N/A") /\
  (get ap "accessPointAttributes" = None -> attributes st = empty_object).
Proof.
  unfold extractFirmwareStatus.
  destruct (negb (truthy (Some ap))); [discriminate|]. cbv zeta.
  match goal with
  | |- context [match ?f with Ret _ => _ | Throw _ => _ end] => destruct f as [o|e] eqn:Hf
  end; [|discriminate].
  intros [= <-]. simpl. repeat split; try (intros ->; reflexivity).
  intros Hnone. rewrite Hnone in Hf. simpl in Hf. by injection Hf.
Qed.

(** C2, at the inputs where the code departs from it: a [notifyUpdated]
    element without [accessPoint], and a [newEvent] element without
    [logEntry], both otherwise well formed, are answered with HTTP 500 and
    no acknowledgement; [extractFirmwareStatus] itself returns its [null]
    for the absent access point. *)
Theorem C2_absent_node_answered_500 :
  extractFirmwareStatus
    (get_opt (get_opt (soap_body (Xml2js.result_of parserOptions
                                    Samples.status_without_accessPoint))
                      "notifyUpdated") "accessPoint") = Ret None /\
  respond Samples.clock Samples.parser
    (Samples.post (Samples.to_xml Samples.status_without_accessPoint)) = internal_error /\
  respond Samples.clock Samples.parser
    (Samples.post (Samples.to_xml Samples.event_without_logEntry)) = internal_error.
Proof. repeat split; by vm_compute. Qed.

(** ** C3: parse failures *)

(** C3: when the parser throws on the request body, [parseXML] returns
    [null] without throwing, and the handler answers 400 with the plain
    text [Invalid SOAP], which is none of the envelopes; the console shows
    that nothing ran after the failure branch, and no SOAP content type was
    set. *)
Theorem C3_parse_failure_is_400
    (now : string) (parse : Xml2js.ParserOptions -> string -> outcome (option tree))
    (req : request) (e : exn) :
  parse parserOptions (body req) = Throw e ->
  (forall w, (parseXML parse (body req) w).1 = Ret None) /\
  respond now parse req = invalid_soap /\
  ("Invalid SOAP" ∉ envelopes) /\
  logged now parse req =
    [ Out (nl +:+ "Received request to: " +:+ path req);
      Out ("SOAPAction: " +:+
           header_or (headers req !! "action")
                     (header_or (headers req !! "soapaction") "unknown"));
      Err "XML Parse Error:" e;
      Out "❌ Failed to parse SOAP envelope" ].
Proof.
  intros Hp. split; [|split; [|split]].
  - intros w. by rewrite (parseXML_thrown _ _ _ _ Hp).
  - unfold respond, post_handler, post_try, try_catch, bind. simpl.
    by rewrite (parseXML_thrown _ _ _ _ Hp).
  - unfold envelopes. rewrite !elem_of_cons, elem_of_nil.
    intros [H|[H|[H|[]]]]; vm_compute in H; discriminate.
  - unfold logged, post_handler, post_try, try_catch, bind. simpl.
    by rewrite (parseXML_thrown _ _ _ _ Hp).
Qed.

Lemma C3_parse_failure_is_400_witness :
  Samples.parser parserOptions (body (Samples.post Samples.unclosed))
    = Throw (ParserError "Unclosed root tag") /\
  respond Samples.clock Samples.parser (Samples.post Samples.unclosed) = invalid_soap.
Proof.
  assert (H : Samples.parser parserOptions (body (Samples.post Samples.unclosed))
              = Throw (ParserError "Unclosed root tag")) by (vm_compute; reflexivity).
  split; [exact H|].
  exact (proj1 (proj2 (C3_parse_failure_is_400 Samples.clock Samples.parser
                         (Samples.post Samples.unclosed)
                         (ParserError "Unclosed root tag") H))).
Defined.

(** ** C4: unrecognised operations *)

(** C4, as stated, fails: the sample envelope with an unknown operation has
    neither child under Body, and the response body is not the single-line
    Unrecognized template of the specification. *)
Lemma C4_counterexample :
  let req := Samples.post (Samples.to_xml Samples.ping_doc) in
  let p := Xml2js.result_of parserOptions Samples.ping_doc in
  Samples.parser parserOptions (body req) = Ret (Some p) /\
  get_opt (soap_body p) "notifyUpdated" = None /\
  get_opt (soap_body p) "newEvent" = None /\
  sent (respond Samples.clock Samples.parser req) <> Some spec_Unrecognized_template.
Proof.
  repeat split; try (vm_compute; reflexivity). vm_compute. discriminate.
Qed.

(** C4, amended: for every parsed envelope whose Body has neither a
    [notifyUpdated] nor a [newEvent] child, the status is 200 and the body
    is the handler's empty-body envelope, which is the specification's
    single-line Unrecognized template with a line break and indentation
    between the elements. *)
Theorem C4_unrecognized_acknowledged
    (now : string) (parse : Xml2js.ParserOptions -> string -> outcome (option tree))
    (req : request) (p : tree) :
  parse parserOptions (body req) = Ret (Some p) ->
  is_Some (soap_body p) ->
  get_opt (soap_body p) "notifyUpdated" = None ->
  get_opt (soap_body p) "newEvent" = None ->
  respond now parse req = acknowledged unknown_envelope /\
  statusCode (respond now parse req) = 200 /\
  strip_layout unknown_envelope = spec_Unrecognized_template.
Proof.
  intros Hp Hb Hn He.
  assert (Hr : respond now parse req = acknowledged unknown_envelope).
  { eapply respond_dispatched; [exact Hp | by apply soap_body_truthy |].
    apply dispatch_unknown; by apply truthy_None_eq. }
  split; [exact Hr|]. split; [by rewrite Hr | by vm_compute].
Qed.

Lemma C4_unrecognized_acknowledged_witness :
  let req := Samples.post (Samples.to_xml Samples.ping_doc) in
  let p := Xml2js.result_of parserOptions Samples.ping_doc in
  Samples.parser parserOptions (body req) = Ret (Some p) /\
  is_Some (soap_body p) /\
  get_opt (soap_body p) "notifyUpdated" = None /\
  get_opt (soap_body p) "newEvent" = None /\
  respond Samples.clock Samples.parser req = acknowledged unknown_envelope.
Proof.
  intros req p.
  assert (Hp : Samples.parser parserOptions (body req) = Ret (Some p))
    by (vm_compute; reflexivity).
  assert (Hb : is_Some (soap_body p)) by (vm_compute; eauto).
  assert (Hn : get_opt (soap_body p) "notifyUpdated" = None) by (vm_compute; reflexivity).
  assert (He : get_opt (soap_body p) "newEvent" = None) by (vm_compute; reflexivity).
  split; [exact Hp|]. split; [exact Hb|]. split; [exact Hn|]. split; [exact He|].
  exact (proj1 (C4_unrecognized_acknowledged Samples.clock Samples.parser req p
                  Hp Hb Hn He)).
Defined.

(** ** C9: both children under Body *)

(** C9, as stated, fails: in the sample whose Body holds an empty
    [notifyUpdated] element and a [newEvent] element, both children are
    present, yet the [newEvent] branch runs and the event acknowledgement
    is returned. *)
Lemma C9_counterexample :
  let req := Samples.post (Samples.to_xml Samples.both_doc) in
  let p := Xml2js.result_of parserOptions Samples.both_doc in
  Samples.parser parserOptions (body req) = Ret (Some p) /\
  is_Some (get_opt (soap_body p) "notifyUpdated") /\
  is_Some (get_opt (soap_body p) "newEvent") /\
  respond Samples.clock Samples.parser req = acknowledged newEvent_envelope /\
  sent (respond Samples.clock Samples.parser req) <> Some notifyUpdated_envelope.
Proof.
  intros req p.
  split; [by vm_compute|]. split; [vm_compute; eauto|]. split; [vm_compute; eauto|].
  split; [by vm_compute|]. vm_compute. discriminate.
Qed.

(** C9, amended: when Body has a non-empty [notifyUpdated] child, the
    [notifyUpdated] branch is taken and whatever else Body holds, a
    [newEvent] child included, is ignored: any other parse result with the
    same [notifyUpdated] child gives the same console and the same
    response, and the event acknowledgement is not produced.  When
    moreover the [accessPoint] under it is non-empty and no object in it
    has a property named [toString], that response is the StatusUpdate
    acknowledgement. *)
Theorem C9_notifyUpdated_takes_precedence
    (now : string) (parse parse' : Xml2js.ParserOptions -> string -> outcome (option tree))
    (req : request) (p p' : tree) :
  parse parserOptions (body req) = Ret (Some p) ->
  parse' parserOptions (body req) = Ret (Some p') ->
  truthy (get_opt (soap_body p) "notifyUpdated") = true ->
  get_opt (soap_body p') "notifyUpdated" = get_opt (soap_body p) "notifyUpdated" ->
  (forall w, post_handler now parse' req w = post_handler now parse req w) /\
  (forall w, (dispatch now (soap_body p) w).1 <> Ret newEvent_envelope) /\
  (forall ap,
     get_opt (get_opt (soap_body p) "notifyUpdated") "accessPoint" = Some ap ->
     truthy (Some ap) = true -> plain ap = true ->
     respond now parse req = acknowledged notifyUpdated_envelope).
Proof.
  intros Hp Hp' Hn Heq.
  assert (Hn' : truthy (get_opt (soap_body p') "notifyUpdated") = true) by by rewrite Heq.
  assert (Ht : truthy (Some p) = true).
  { apply soap_body_truthy. by eapply get_opt_truthy_is_Some. }
  assert (Ht' : truthy (Some p') = true).
  { apply soap_body_truthy. by eapply get_opt_truthy_is_Some. }
  split; [|split].
  - intros w. eapply post_handler_dispatch_ext; eauto.
    intros w'. unfold dispatch. by rewrite Hn, Hn', Heq.
  - intros w. unfold dispatch. rewrite Hn. unfold bind.
    destruct (logCallback now "notifyUpdated" _ w) as [[[]|e] w']; simpl.
    + intros H. vm_compute in H. discriminate.
    + discriminate.
  - intros ap Hap Ha Hplain. eapply respond_dispatched; [exact Hp | exact Ht |].
    apply dispatch_notifyUpdated; [exact Hn|]. rewrite Hap.
    by apply plain_status_printable.
Qed.

Lemma C9_notifyUpdated_takes_precedence_witness :
  let req := Samples.post (Samples.to_xml Samples.event_and_status_doc) in
  let p := Xml2js.result_of parserOptions Samples.event_and_status_doc in
  let p' := Xml2js.result_of parserOptions Samples.status_doc in
  let parse' := fun (_ : Xml2js.ParserOptions) (_ : string) => Ret (Some p') in
  Samples.parser parserOptions (body req) = Ret (Some p) /\
  is_Some (get_opt (soap_body p) "newEvent") /\
  truthy (get_opt (soap_body p) "notifyUpdated") = true /\
  get_opt (soap_body p') "notifyUpdated" = get_opt (soap_body p) "notifyUpdated" /\
  respond Samples.clock parse' req = respond Samples.clock Samples.parser req.
Proof.
  intros req p p' parse'.
  assert (Hp : Samples.parser parserOptions (body req) = Ret (Some p))
    by (vm_compute; reflexivity).
  assert (Hp' : parse' parserOptions (body req) = Ret (Some p')) by reflexivity.
  assert (Hn : truthy (get_opt (soap_body p) "notifyUpdated") = true)
    by (vm_compute; reflexivity).
  assert (Heq : get_opt (soap_body p') "notifyUpdated"
                = get_opt (soap_body p) "notifyUpdated") by (vm_compute; reflexivity).
  split; [exact Hp|]. split; [vm_compute; eauto|]. split; [exact Hn|].
  split; [exact Heq|].
  unfold respond.
  exact (f_equal (fun r => res r.2)
           (proj1 (C9_notifyUpdated_takes_precedence Samples.clock Samples.parser parse'
                     req p p' Hp Hp' Hn Heq) fresh)).
Defined.

(** ** C10: well-formed XML that is no SOAP envelope *)

(** C10: when the body parses and the tree has no [Envelope], or no [Body]
    under it, the optional chaining gives an absent body, the handler does
    not throw, and the answer is HTTP 200 with the empty-body
    acknowledgement. *)
Theorem C10_no_envelope_acknowledged
    (now : string) (parse : Xml2js.ParserOptions -> string -> outcome (option tree))
    (req : request) (p : tree) :
  parse parserOptions (body req) = Ret (Some p) ->
  truthy (Some p) = true ->
  get p "Envelope" = None \/ get_opt (get p "Envelope") "Body" = None ->
  soap_body p = None /\
  (post_handler now parse req fresh).1 = Ret tt /\
  respond now parse req = acknowledged unknown_envelope /\
  statusCode (respond now parse req) = 200.
Proof.
  intros Hp Ht Hcase.
  assert (Hb : soap_body p = None).
  { unfold soap_body. destruct Hcase as [-> | ->]; reflexivity. }
  assert (Hd : logs_then (dispatch now (soap_body p)) (Ret unknown_envelope)).
  { rewrite Hb. by apply dispatch_unknown. }
  assert (Hr : respond now parse req = acknowledged unknown_envelope).
  { by eapply respond_dispatched. }
  split; [exact Hb|]. split; [|split; [exact Hr | by rewrite Hr]].
  destruct Hd as [out Hd].
  unfold post_handler, post_try, try_catch, bind. simpl.
  rewrite (parseXML_resolved _ _ _ _ Hp), Ht. simpl. by rewrite Hd.
Qed.

Lemma C10_no_envelope_acknowledged_witness :
  let req := Samples.post (Samples.to_xml Samples.html_doc) in
  let p := Xml2js.result_of parserOptions Samples.html_doc in
  Samples.parser parserOptions (body req) = Ret (Some p) /\
  truthy (Some p) = true /\
  get p "Envelope" = None /\
  respond Samples.clock Samples.parser req = acknowledged unknown_envelope.
Proof.
  intros req p.
  assert (Hp : Samples.parser parserOptions (body req) = Ret (Some p))
    by (vm_compute; reflexivity).
  assert (Ht : truthy (Some p) = true) by reflexivity.
  assert (He : get p "Envelope" = None) by reflexivity.
  split; [exact Hp|]. split; [exact Ht|]. split; [exact He|].
  exact (proj1 (proj2 (proj2 (C10_no_envelope_acknowledged Samples.clock Samples.parser
                                req p Hp Ht (or_introl He))))).
Defined.

(** ** Property lists *)

Lemma assoc_obj_set_eq (k : string) (v : tree) (ps : list (string * tree)) :
  assoc k (Xml2js.obj_set k v ps) = Some v.
Proof.
  induction ps as [|[k' v'] ps IH]; simpl.
  - by rewrite String.eqb_refl.
  - destruct (String.eqb k k') eqn:E; simpl.
    + by rewrite String.eqb_refl.
    + by rewrite E.
Qed.

Lemma assoc_obj_set_ne (k k' : string) (v : tree) (ps : list (string * tree)) :
  k <> k' -> assoc k' (Xml2js.obj_set k v ps) = assoc k' ps.
Proof.
  intros Hne. induction ps as [|[k0 v0] ps IH]; simpl.
  - destruct (String.eqb k' k) eqn:E; [|done].
    apply String.eqb_eq in E. congruence.
  - destruct (String.eqb k k0) eqn:E; simpl.
    + apply String.eqb_eq in E. subst k0.
      destruct (String.eqb k' k) eqn:E'; [|done].
      apply String.eqb_eq in E'. congruence.
    + by rewrite IH.
Qed.


Lemma assoc_prop_set_eq (k : string) (v : jsval) (ps : list (string * jsval)) :
  assoc k (prop_set k v ps) = Some v.
Proof.
  induction ps as [|[k' v'] ps IH]; simpl.
  - by rewrite String.eqb_refl.
  - destruct (String.eqb k k') eqn:E; simpl.
    + by rewrite String.eqb_refl.
    + by rewrite E.
Qed.

Lemma assoc_prop_set_ne (k k' : string) (v : jsval) (ps : list (string * jsval)) :
  k <> k' -> assoc k' (prop_set k v ps) = assoc k' ps.
Proof.
  intros Hne. induction ps as [|[k0 v0] ps IH]; simpl.
  - destruct (String.eqb k' k) eqn:E; [|done].
    apply String.eqb_eq in E. congruence.
  - destruct (String.eqb k k0) eqn:E; simpl.
    + apply String.eqb_eq in E. subst k0.
      destruct (String.eqb k' k) eqn:E'; [|done].
      apply String.eqb_eq in E'. congruence.
    + by rewrite IH.
Qed.

Lemma elem_of_keys_prop_set (k k' : string) (v : jsval) (ps : list (string * jsval)) :
  k' ∈ map fst (prop_set k v ps) <-> k' = k \/ k' ∈ map fst ps.
Proof.
  induction ps as [|[k0 v0] ps IH]; simpl.
  - rewrite elem_of_cons. set_solver.
  - destruct (String.eqb k k0) eqn:E; simpl.
    + apply String.eqb_eq in E. subst k0. rewrite !elem_of_cons. tauto.
    + rewrite !elem_of_cons, IH. tauto.
Qed.

Lemma NoDup_keys_prop_set (k : string) (v : jsval) (ps : list (string * jsval)) :
  NoDup (map fst ps) -> NoDup (map fst (prop_set k v ps)).
Proof.
  induction ps as [|[k0 v0] ps IH]; simpl; intros Hnd.
  - apply NoDup_singleton.
  - apply NoDup_cons in Hnd as [Hnotin Hnd].
    destruct (String.eqb k k0) eqn:E; simpl.
    + apply String.eqb_eq in E. subst k0. by apply NoDup_cons.
    + apply NoDup_cons. split; [|by apply IH].
      rewrite elem_of_keys_prop_set. intros [->|Hin]; [|done].
      by rewrite String.eqb_refl in E.
Qed.

Lemma length_prop_set (k : string) (v : jsval) (ps : list (string * jsval)) :
  length (prop_set k v ps) <= S (length ps).
Proof.
  induction ps as [|[k0 v0] ps IH]; simpl; [lia|].
  destruct (String.eqb k k0); simpl; lia.
Qed.

Lemma bindings_lookup (o : js_object) (n : string) :
  bindings o !! n = assoc n (own o).
Proof.
  unfold bindings. induction (own o) as [|[k v] ps IH]; simpl; [done|].
  destruct (String.eqb n k) eqn:E.
  - apply String.eqb_eq in E. subst k. by rewrite lookup_insert_eq.
  - rewrite lookup_insert_ne; [done|]. intros ->. by rewrite String.eqb_refl in E.
Qed.

(** ** One step of the attribute loop *)

Lemma assign_own_eq (key : string) (v : jsval) (o : js_object) :
  key <> "__proto__" ->
  assign key v o = {| own := prop_set key v (own o); proto := proto o |}.
Proof.
  intros Hk. unfold assign. destruct (String.eqb key "__proto__") eqn:E; [|done].
  by apply String.eqb_eq in E.
Qed.

Lemma assign_lookup_eq (key : string) (v : jsval) (o : js_object) :
  key <> "__proto__" -> assoc key (own (assign key v o)) = Some v.
Proof. intros Hk. rewrite assign_own_eq by done. apply assoc_prop_set_eq. Qed.

Lemma assign_lookup_ne (key n : string) (v : jsval) (o : js_object) :
  key <> n -> assoc n (own (assign key v o)) = assoc n (own o).
Proof.
  intros Hne. unfold assign. destruct (String.eqb key "__proto__").
  - by destruct v as [[s|props|items]|].
  - by apply assoc_prop_set_ne.
Qed.

Lemma assign_lookup_proto (v : jsval) (o : js_object) (n : string) :
  assoc n (own (assign "__proto__" v o)) = assoc n (own o).
Proof. unfold assign. simpl. by destruct v as [[s|props|items]|]. Qed.

Lemma attr_step_Ret (o o' : js_object) (e : tree) :
  attr_step o e = Ret o' ->
  (attr_key e = None /\ o' = o) \/
  (exists key, attr_key e = Some key /\ o' = assign key (attr_value e) o).
Proof.
  unfold attr_step, attr_key. destruct (truthy (attr_name e)).
  - destruct (render (attr_name e)) as [key|]; [|discriminate].
    intros [= <-]. right. by exists key.
  - intros [= <-]. by left.
Qed.

Lemma attr_step_Throw (o : js_object) (e : tree) (err : exn) :
  attr_step o e = Throw err ->
  err = coercion_error /\ attr_key e = None /\
  forall o2, attr_step o2 e = Throw coercion_error.
Proof.
  unfold attr_step, attr_key. destruct (truthy (attr_name e)); [|discriminate].
  destruct (render (attr_name e)) as [key|]; [discriminate|].
  intros [= <-]. done.
Qed.

Lemma attr_step_keyed (o : js_object) (e : tree) (key : string) :
  attr_key e = Some key -> attr_step o e = Ret (assign key (attr_value e) o).
Proof.
  unfold attr_step, attr_key. destruct (truthy (attr_name e)); [|discriminate].
  by intros ->.
Qed.

Lemma fold_outcome_app {S A} (f : S -> A -> outcome S) (s : S) (l1 l2 : list A) :
  fold_outcome f s (l1 ++ l2) =
  match fold_outcome f s l1 with
  | Ret s1 => fold_outcome f s1 l2
  | Throw e => Throw e
  end.
Proof.
  revert s. induction l1 as [|x l1 IH]; intros s; simpl; [done|].
  destruct (f s x); [apply IH | done].
Qed.

Lemma attr_step_other (o o' : js_object) (e : tree) (n : string) :
  attr_step o e = Ret o' -> attr_key e <> Some n ->
  assoc n (own o') = assoc n (own o).
Proof.
  intros Hstep Hk. destruct (attr_step_Ret _ _ _ Hstep) as [[_ ->]|(key & Hkey & ->)]; [done|].
  apply assign_lookup_ne. congruence.
Qed.

Lemma fold_attr_step_others (post : list tree) (o o' : js_object) (n : string) :
  fold_outcome attr_step o post = Ret o' ->
  (forall e', e' ∈ post -> attr_key e' <> Some n) ->
  assoc n (own o') = assoc n (own o).
Proof.
  revert o. induction post as [|e post IH]; intros o Hfold Hpost; simpl in Hfold.
  - by injection Hfold as <-.
  - destruct (attr_step o e) as [o1|err] eqn:Hstep; [|discriminate].
    rewrite (IH o1 Hfold); [|intros e' He'; apply Hpost; by right].
    eapply attr_step_other; [done|]. apply Hpost. by left.
Qed.

Lemma keys_ok_empty : keys_ok empty_object.
Proof. split; [constructor | apply not_elem_of_nil]. Qed.

Lemma keys_ok_assign (key : string) (v : jsval) (o : js_object) :
  keys_ok o -> keys_ok (assign key v o).
Proof.
  intros [Hnd Hp]. unfold assign. destruct (String.eqb key "__proto__") eqn:E.
  - by destruct v as [[s|props|items]|].
  - split; simpl; [by apply NoDup_keys_prop_set|].
    rewrite elem_of_keys_prop_set. intros [Heq|Hin]; [|done].
    subst key. by rewrite String.eqb_refl in E.
Qed.

Lemma keys_ok_fold (entries : list tree) (o o' : js_object) :
  fold_outcome attr_step o entries = Ret o' -> keys_ok o -> keys_ok o'.
Proof.
  revert o. induction entries as [|e entries IH]; intros o Hfold Ho; simpl in Hfold.
  - by injection Hfold as <-.
  - destruct (attr_step o e) as [o1|err] eqn:Hstep; [|discriminate].
    apply (IH o1 Hfold).
    destruct (attr_step_Ret _ _ _ Hstep) as [[_ ->]|(key & _ & ->)]; [done|].
    by apply keys_ok_assign.
Qed.

(** ** C5: case variants of the attribute keys *)

(** C5, as stated, fails: for an entry with an empty [value] element the
    code does not take the first defined value, and the lower-case and the
    upper-case spelling of the same entry normalise to different maps. *)
Lemma C5_counterexample :
  let lower := TObj [("name", TStr "MODE"); ("value", TStr "")] in
  let upper := TObj [("NAME", TStr "MODE"); ("VALUE", TStr "")] in
  spec_first_defined lower value_keys = Some (TStr "") /\
  attr_value lower = None /\
  normalize_attributes lower = Ret {| own := [("MODE", None)]; proto := None |} /\
  normalize_attributes upper = Ret {| own := [("MODE", Some (TStr ""))]; proto := None |} /\
  normalize_attributes lower <> normalize_attributes upper.
Proof.
  intros lower upper.
  split; [reflexivity|]. split; [reflexivity|].
  split; [reflexivity|]. split; [reflexivity|].
  discriminate.
Qed.

Lemma jor_truthy (a b : jsval) : truthy a = true -> jor a b = a.
Proof. intros H. unfold jor. by rewrite H. Qed.

Lemma jor_undefined (b : jsval) : jor None b = b.
Proof. reflexivity. Qed.

Lemma attr_name_first_truthy (attr : tree) :
  attr_name attr = first_truthy [get attr "name"; get attr "Name"; get attr "NAME"].
Proof.
  unfold attr_name, jor. simpl.
  destruct (truthy (get attr "name")) eqn:E1; [by rewrite E1 | reflexivity].
Qed.

Lemma attr_value_first_truthy (attr : tree) :
  attr_value attr = first_truthy [get attr "value"; get attr "Value"; get attr "VALUE"].
Proof.
  unfold attr_value, jor. simpl.
  destruct (truthy (get attr "value")) eqn:E1; [by rewrite E1 | reflexivity].
Qed.

(** C5, amended: for every entry the name is [name || Name || NAME], the
    first truthy (defined and non-empty) value in that fixed order and the
    [NAME] operand when none is truthy, and likewise the value with
    [value], [Value], [VALUE].  An entry that has one name key and one
    value key, in any of the three spellings each, with a non-empty name
    other than [__proto__] and a non-empty value, stores that one binding
    whichever spellings it uses. *)
Theorem C5_case_variants_normalize_alike
    (attr : tree) (kn kv : string) (n v : tree) (key : string) (o : js_object) :
  kn ∈ name_keys -> kv ∈ value_keys ->
  truthy (Some n) = true -> truthy (Some v) = true ->
  toStr n = Some key -> key <> "__proto__" ->
  attr_name attr = first_truthy [get attr "name"; get attr "Name"; get attr "NAME"] /\
  attr_value attr = first_truthy [get attr "value"; get attr "Value"; get attr "VALUE"] /\
  attr_step o (TObj [(kn, n); (kv, v)]) =
    Ret {| own := prop_set key (Some v) (own o); proto := proto o |}.
Proof.
  intros Hkn Hkv Hn Hv Hkey Hproto.
  split; [apply attr_name_first_truthy|]. split; [apply attr_value_first_truthy|].
  set (e := TObj [(kn, n); (kv, v)]).
  assert (Hname : attr_name e = Some n).
  { unfold name_keys in Hkn. rewrite !elem_of_cons, elem_of_nil in Hkn.
    unfold value_keys in Hkv. rewrite !elem_of_cons, elem_of_nil in Hkv.
    destruct Hkn as [->|[->|[->|[]]]]; destruct Hkv as [->|[->|[->|[]]]];
      unfold e, attr_name; simpl (get _ _);
      rewrite ?jor_undefined, ?(jor_truthy _ _ Hn); reflexivity. }
  assert (Hvalue : attr_value e = Some v).
  { unfold name_keys in Hkn. rewrite !elem_of_cons, elem_of_nil in Hkn.
    unfold value_keys in Hkv. rewrite !elem_of_cons, elem_of_nil in Hkv.
    destruct Hkn as [->|[->|[->|[]]]]; destruct Hkv as [->|[->|[->|[]]]];
      unfold e, attr_value; simpl (get _ _);
      rewrite ?jor_undefined, ?(jor_truthy _ _ Hv); reflexivity. }
  rewrite (attr_step_keyed o e key).
  - rewrite Hvalue. f_equal. by apply assign_own_eq.
  - unfold attr_key. rewrite Hname, Hn. exact Hkey.
Qed.

Lemma C5_case_variants_normalize_alike_witness :
  let n := TStr "FIRMWARE_VERSION" in
  let v := TStr "2.1.0" in
  let attr := TObj [("name", TStr ""); ("Name", TStr "MODE"); ("NAME", TStr "OTHER");
                    ("value", TStr ""); ("VALUE", TStr "")] in
  attr_name attr = Some (TStr "MODE") /\
  attr_value attr = Some (TStr "") /\
  attr_step empty_object (TObj [("NAME", n); ("VALUE", v)])
    = attr_step empty_object (TObj [("name", n); ("value", v)]) /\
  attr_step empty_object (TObj [("Name", n); ("Value", v)])
    = attr_step empty_object (TObj [("name", n); ("value", v)]).
Proof.
  intros n v attr.
  assert (Hn : truthy (Some n) = true) by reflexivity.
  assert (Hv : truthy (Some v) = true) by reflexivity.
  assert (Hk : toStr n = Some "FIRMWARE_VERSION") by reflexivity.
  assert (Hp : "FIRMWARE_VERSION" <> "__proto__") by discriminate.
  assert (N1 : "name" ∈ name_keys) by (unfold name_keys; repeat constructor).
  assert (N2 : "Name" ∈ name_keys) by (unfold name_keys; repeat constructor).
  assert (N3 : "NAME" ∈ name_keys) by (unfold name_keys; repeat constructor).
  assert (V1 : "value" ∈ value_keys) by (unfold value_keys; repeat constructor).
  assert (V2 : "Value" ∈ value_keys) by (unfold value_keys; repeat constructor).
  assert (V3 : "VALUE" ∈ value_keys) by (unfold value_keys; repeat constructor).
  pose proof (C5_case_variants_normalize_alike attr "name" "value" n v _ empty_object
                N1 V1 Hn Hv Hk Hp) as (Ha & Hb & H1).
  pose proof (C5_case_variants_normalize_alike attr "Name" "Value" n v _ empty_object
                N2 V2 Hn Hv Hk Hp) as (_ & _ & H2).
  pose proof (C5_case_variants_normalize_alike attr "NAME" "VALUE" n v _ empty_object
                N3 V3 Hn Hv Hk Hp) as (_ & _ & H3).
  split; [exact Ha|]. split; [exact Hb|].
  split; [exact (eq_trans H3 (eq_sym H1)) | exact (eq_trans H2 (eq_sym H1))].
Defined.

(** ** C6: one entry, bare or in a one-element array *)

Lemma get_obj_set_eq (k : string) (v : tree) (ps : list (string * tree)) :
  get (TObj (Xml2js.obj_set k v ps)) k = Some v.
Proof. apply assoc_obj_set_eq. Qed.

Lemma get_obj_set_ne (k k' : string) (v : tree) (ps : list (string * tree)) :
  k <> k' -> get (TObj (Xml2js.obj_set k v ps)) k' = get (TObj ps) k'.
Proof. apply assoc_obj_set_ne. Qed.

(** The extractor reads the attribute node only through
    [normalize_attributes], and only when it is truthy. *)
Lemma extractFirmwareStatus_attributes (ap apa : list (string * tree)) (attrs : tree) :
  truthy (Some attrs) = true ->
  extractFirmwareStatus
    (Some (TObj (Xml2js.obj_set "accessPointAttributes"
                   (TObj (Xml2js.obj_set "attributes" attrs apa)) ap))) =
  match normalize_attributes attrs with
  | Ret o => Ret (Some {|
      accessPointId := or_lit (get (TObj ap) "id") "N/A";
      serialNumber := or_lit (get (TObj ap) "serialNumber") "N/A";
      online := or_lit (get (TObj ap) "online") "N/A";
      syncStatus := or_lit (get (TObj ap) "syncStatus") "N/A";
      firmwareUpgradeStatus := or_lit (get (TObj ap) "firmwareUpgradeStatus") "N/A";
      timeOfLastFirmwareUpgrade := or_lit (get (TObj ap) "timeOfLastFirmwareUpgrade") "N/A";
      attributes := o
    |})
  | Throw e => Throw e
  end.
Proof.
  intros Ht. unfold extractFirmwareStatus.
  change (negb (truthy (Some (TObj _)))) with false. cbv iota zeta.
  rewrite get_obj_set_eq.
  rewrite !get_obj_set_ne by discriminate.
  change (truthy (Some (TObj (Xml2js.obj_set "attributes" attrs apa)))) with true.
  unfold get_opt. rewrite get_obj_set_eq, Ht. reflexivity.
Qed.

(** C6: for the attributes of a [notifyUpdated] payload and for the
    [logData] of a [newEvent] payload alike, one entry given as a bare
    object and the same entry given as a one-element array are extracted
    to the same map, the same status record and the same console lines. *)
Theorem C6_bare_entry_equals_singleton
    (now : string) (entry ap apa logEntry : list (string * tree)) :
  as_array (TObj entry) = as_array (TArr [TObj entry]) /\
  normalize_attributes (TObj entry) = normalize_attributes (TArr [TObj entry]) /\
  extractFirmwareStatus
    (Some (TObj (Xml2js.obj_set "accessPointAttributes"
                   (TObj (Xml2js.obj_set "attributes" (TObj entry) apa)) ap))) =
  extractFirmwareStatus
    (Some (TObj (Xml2js.obj_set "accessPointAttributes"
                   (TObj (Xml2js.obj_set "attributes" (TArr [TObj entry]) apa)) ap))) /\
  log_logData (Some (TObj entry)) = log_logData (Some (TArr [TObj entry])) /\
  logCallback now "newEvent" (Some (TObj (Xml2js.obj_set "logData" (TObj entry) logEntry))) =
  logCallback now "newEvent" (Some (TObj (Xml2js.obj_set "logData" (TArr [TObj entry]) logEntry))).
Proof.
  split; [reflexivity|]. split; [reflexivity|]. split; [|split; [reflexivity|]].
  - by rewrite !extractFirmwareStatus_attributes.
  - unfold logCallback.
    change (String.eqb "newEvent" "notifyUpdated") with false.
    change (String.eqb "newEvent" "newEvent") with true. cbv iota.
    unfold log_newEvent, deref. rewrite !bind_ret_l. cbv beta.
    rewrite !get_obj_set_eq.
    rewrite !get_obj_set_ne by discriminate.
    reflexivity.
Qed.

(** ** C8: repeated attribute names *)

(** C8, as stated, fails for the name [__proto__]: two entries of that
    name normalise to the same name, yet the assignment goes to the
    inherited accessor and the resulting object has no property at all. *)
Lemma C8_counterexample :
  let first := TObj [("name", TStr "__proto__"); ("value", TStr "1")] in
  let second := TObj [("name", TStr "__proto__"); ("value", TStr "2")] in
  attr_key first = Some "__proto__" /\
  attr_key second = Some "__proto__" /\
  attr_value second = Some (TStr "2") /\
  normalize_attributes (TArr [first; second]) = Ret empty_object /\
  assoc "__proto__" (own empty_object) = None.
Proof. intros first second. repeat split; reflexivity. Qed.

(** C8, amended: when the attribute loop runs to its end, the attribute
    object binds every name other than [__proto__] to the value of the
    last entry that normalises to that name, whatever entries of the same
    name come before it: earlier values are overwritten, and the names of
    the object are pairwise different. *)
Theorem C8_last_entry_wins (pre post : list tree) (e : tree) (n : string) (o : js_object) :
  attr_key e = Some n ->
  n <> "__proto__" ->
  (forall e', e' ∈ post -> attr_key e' <> Some n) ->
  normalize_attributes (TArr (pre ++ e :: post)) = Ret o ->
  assoc n (own o) = Some (attr_value e) /\
  bindings o !! n = Some (attr_value e) /\
  NoDup (map fst (own o)).
Proof.
  intros He Hn Hpost Hrun. unfold normalize_attributes in Hrun. simpl in Hrun.
  pose proof (keys_ok_fold _ _ _ Hrun keys_ok_empty) as [Hnd Hp].
  rewrite fold_outcome_app in Hrun.
  destruct (fold_outcome attr_step empty_object pre) as [o1|err]; [|discriminate].
  simpl in Hrun. rewrite (attr_step_keyed o1 e n He) in Hrun.
  assert (H : assoc n (own o) = Some (attr_value e)).
  { rewrite (fold_attr_step_others post _ o n Hrun Hpost).
    by apply assign_lookup_eq. }
  split; [exact H|]. split; [by rewrite bindings_lookup | exact Hnd].
Qed.

Lemma C8_last_entry_wins_witness :
  let first := TObj [("name", TStr "FIRMWARE_VERSION"); ("value", TStr "1.0")] in
  let second := TObj [("Name", TStr "FIRMWARE_VERSION"); ("Value", TStr "2.0")] in
  let other := TObj [("name", TStr "MODE"); ("value", TStr "office")] in
  let o := {| own := [("FIRMWARE_VERSION", Some (TStr "2.0")); ("MODE", Some (TStr "office"))];
              proto := None |} in
  attr_key first = Some "FIRMWARE_VERSION" /\
  attr_key second = Some "FIRMWARE_VERSION" /\
  normalize_attributes (TArr [first; second; other]) = Ret o /\
  assoc "FIRMWARE_VERSION" (own o) = Some (Some (TStr "2.0")).
Proof.
  intros first second other o.
  assert (H1 : attr_key first = Some "FIRMWARE_VERSION") by reflexivity.
  assert (H2 : attr_key second = Some "FIRMWARE_VERSION") by reflexivity.
  assert (Hn : "FIRMWARE_VERSION" <> "__proto__") by discriminate.
  assert (Hpost : forall e', e' ∈ [other] -> attr_key e' <> Some "FIRMWARE_VERSION").
  { intros e' He'. apply list_elem_of_singleton in He'. subst e'. discriminate. }
  assert (Hrun : normalize_attributes (TArr ([first] ++ second :: [other])) = Ret o)
    by reflexivity.
  split; [exact H1|]. split; [exact H2|]. split; [exact Hrun|].
  exact (proj1 (C8_last_entry_wins [first] [other] second "FIRMWARE_VERSION" o
                  H2 Hn Hpost Hrun)).
Defined.

(** ** C7: namespace prefixes *)

Lemma after_last_colon_prefixed (prefix local : string) :
  Xml2js.after_last_colon local = None ->
  Xml2js.after_last_colon (prefix +:+ ":" +:+ local) = Some local.
Proof.
  intros Hl. change (":" +:+ local) with (String ":"%char local).
  induction prefix as [|c prefix IH].
  - change (EmptyString +:+ String ":"%char local) with (String ":"%char local).
    simpl. by rewrite Hl.
  - change (String c prefix +:+ String ":"%char local)
      with (String c (prefix +:+ String ":"%char local)).
    simpl. by rewrite IH.
Qed.

Lemma tagName_prefixed (prefix local : string) :
  Xml2js.after_last_colon local = None ->
  String.prefix "xmlns" (prefix +:+ ":" +:+ local) = false ->
  Xml2js.tagName parserOptions (prefix +:+ ":" +:+ local) = local.
Proof.
  intros Hl Hx. unfold Xml2js.tagName, parserOptions, Xml2js.processItem. simpl.
  unfold Xml2js.stripPrefix. by rewrite Hx, after_last_colon_prefixed.
Qed.

Lemma value_of_Elem (o : Xml2js.ParserOptions) (name : string)
    (attrs : list (string * string)) (kids : list Xml2js.node) :
  Xml2js.value_of o (Xml2js.Elem name attrs kids) =
  let text := Xml2js.chars kids in
  let props := child_props o kids (Xml2js.attr_props o attrs) in
  if Xml2js.blank text then
    match props with [] => TStr text | _ => TObj props end
  else
    match props with [] => TStr text | _ => TObj (("_", TStr text) :: props) end.
Proof.
  simpl. unfold child_props.
  generalize (Xml2js.attr_props o attrs) as acc.
  generalize (Xml2js.chars kids) as text. intros text.
  assert (H : forall acc,
    (fix go (ks : list Xml2js.node) (acc0 : list (string * tree)) {struct ks} :
         list (string * tree) :=
       match ks with
       | [] => acc0
       | Xml2js.Text _ :: ks' => go ks' acc0
       | (Xml2js.Elem cname _ _ as c) :: ks' =>
           go ks' (Xml2js.assignOrPush o acc0 (Xml2js.tagName o cname) (Xml2js.value_of o c))
       end) kids acc =
    foldl (fun acc0 k =>
             match k with
             | Xml2js.Text _ => acc0
             | Xml2js.Elem cname _ _ =>
                 Xml2js.assignOrPush o acc0 (Xml2js.tagName o cname) (Xml2js.value_of o k)
             end) acc kids).
  { induction kids as [|k kids IH]; intros acc; [done|].
    destruct k; simpl; apply IH. }
  intros acc. by rewrite H.
Qed.

#[local] Arguments Xml2js.value_of : simpl never.

Lemma value_of_not_array (o : Xml2js.ParserOptions) (n : Xml2js.node) (items : list tree) :
  Xml2js.value_of o n <> TArr items.
Proof.
  destruct n as [s|name attrs kids]; [done|].
  rewrite value_of_Elem. simpl.
  destruct (Xml2js.blank _); destruct (child_props _ _ _); discriminate.
Qed.

Lemma assignOrPush_holds (o : Xml2js.ParserOptions) (ps : list (string * tree))
    (k : string) (v : tree) :
  exists x, assoc k (Xml2js.assignOrPush o ps k v) = Some x /\ holds v x.
Proof.
  unfold Xml2js.assignOrPush.
  destruct (assoc k ps) as [[s|props|items]|] eqn:E; rewrite assoc_obj_set_eq.
  - eexists; split; [done|]. right. eexists; split; [done|]. set_solver.
  - eexists; split; [done|]. right. eexists; split; [done|]. set_solver.
  - eexists; split; [done|]. right. eexists; split; [done|]. set_solver.
  - destruct (Xml2js.explicitArray o).
    + eexists; split; [done|]. right. eexists; split; [done|]. set_solver.
    + eexists; split; [done|]. by left.
Qed.

Lemma assignOrPush_keeps (o : Xml2js.ParserOptions) (ps : list (string * tree))
    (k k' : string) (v v' x : tree) :
  (forall items, v <> TArr items) ->
  assoc k ps = Some x -> holds v x ->
  exists x', assoc k (Xml2js.assignOrPush o ps k' v') = Some x' /\ holds v x'.
Proof.
  intros Hv Hx Hh. unfold Xml2js.assignOrPush.
  destruct (decide (k' = k)) as [->|Hne].
  - rewrite Hx. destruct Hh as [->|(items & -> & Hin)].
    + destruct v as [s|props|items]; rewrite assoc_obj_set_eq.
      * eexists; split; [done|]. right. eexists; split; [done|]. set_solver.
      * eexists; split; [done|]. right. eexists; split; [done|]. set_solver.
      * by destruct (Hv items).
    + rewrite assoc_obj_set_eq.
      eexists; split; [done|]. right. eexists; split; [done|]. set_solver.
  - exists x. split; [|done].
    destruct (assoc k' ps) as [[s|props|items]|]; by rewrite assoc_obj_set_ne.
Qed.

Lemma child_props_keeps (o : Xml2js.ParserOptions) (kids : list Xml2js.node)
    (acc : list (string * tree)) (k : string) (v x : tree) :
  (forall items, v <> TArr items) ->
  assoc k acc = Some x -> holds v x ->
  exists x', assoc k (child_props o kids acc) = Some x' /\ holds v x'.
Proof.
  intros Hv. revert acc x.
  induction kids as [|c kids IH]; intros acc x Hx Hh; [by exists x|].
  unfold child_props. simpl. destruct c as [s|cname cattrs ckids].
  - by apply (IH acc x).
  - destruct (assignOrPush_keeps o acc k (Xml2js.tagName o cname)
                v (Xml2js.value_of o (Xml2js.Elem cname cattrs ckids)) x Hv Hx Hh)
      as (x' & Hx' & Hh').
    by apply (IH _ x').
Qed.

(** Every child element is found in its parent's properties under its
    processed name. *)
Lemma child_props_holds (o : Xml2js.ParserOptions) (kids : list Xml2js.node)
    (acc : list (string * tree)) (cname : string)
    (cattrs : list (string * string)) (ckids : list Xml2js.node) :
  Xml2js.Elem cname cattrs ckids ∈ kids ->
  exists x, assoc (Xml2js.tagName o cname) (child_props o kids acc) = Some x /\
            holds (Xml2js.value_of o (Xml2js.Elem cname cattrs ckids)) x.
Proof.
  revert acc. induction kids as [|c kids IH]; intros acc Hin.
  - by apply elem_of_nil in Hin.
  - apply elem_of_cons in Hin as [<-|Hin].
    + unfold child_props. simpl.
      destruct (assignOrPush_holds o acc (Xml2js.tagName o cname)
                  (Xml2js.value_of o (Xml2js.Elem cname cattrs ckids))) as (x & Hx & Hh).
      eapply child_props_keeps; eauto. intros items. apply value_of_not_array.
    + unfold child_props. simpl. destruct c; by apply IH.
Qed.

(** C7, as stated, fails for attribute names: the parser is given no
    attribute-name processor, so a prefixed attribute keeps its prefix in
    the parsed tree and is not found under its local name. *)
Lemma C7_counterexample :
  let doc := Xml2js.Elem "ns:item" [("ns:kind", "door")] [] in
  let attrs := get_opt (get (Xml2js.result_of parserOptions doc) "item") "$" in
  get_opt attrs "kind" = None /\
  get_opt attrs "ns:kind" = Some (TStr "door") /\
  Xml2js.attrName parserOptions "ns:kind" <> Xml2js.stripPrefix "ns:kind".
Proof.
  intros doc attrs.
  split; [by vm_compute|]. split; [by vm_compute|].
  vm_compute. discriminate.
Qed.

(** C7, amended: the parser strips the namespace prefix from every element
    name that does not start with [xmlns], so the root element and every
    child element are found under their local names (a repeated child as a
    member of the array stored there); attribute names are stored as they
    are written, prefix included. *)
Theorem C7_element_names_stripped
    (prefix local name : string) (attrs cattrs : list (string * string))
    (kids ckids : list Xml2js.node) :
  Xml2js.after_last_colon local = None ->
  String.prefix "xmlns" (prefix +:+ ":" +:+ local) = false ->
  local <> "_" ->
  Xml2js.Elem (prefix +:+ ":" +:+ local) cattrs ckids ∈ kids ->
  let child := Xml2js.Elem (prefix +:+ ":" +:+ local) cattrs ckids in
  Xml2js.tagName parserOptions (prefix +:+ ":" +:+ local) = local /\
  get (Xml2js.result_of parserOptions child) local
    = Some (Xml2js.value_of parserOptions child) /\
  (exists x, get (Xml2js.value_of parserOptions (Xml2js.Elem name attrs kids)) local = Some x /\
             holds (Xml2js.value_of parserOptions child) x) /\
  (forall a, Xml2js.attrName parserOptions a = a).
Proof.
  intros Hl Hx Hu Hin child.
  pose proof (tagName_prefixed prefix local Hl Hx) as Ht.
  split; [exact Ht|]. split; [|split; [|reflexivity]].
  - unfold child, Xml2js.result_of. rewrite Ht. simpl. by rewrite String.eqb_refl.
  - destruct (child_props_holds parserOptions kids (Xml2js.attr_props parserOptions attrs)
                _ _ _ Hin) as (x & Hfound & Hh).
    rewrite Ht in Hfound. exists x. split; [|exact Hh].
    rewrite value_of_Elem. cbv zeta.
    destruct (child_props parserOptions kids _) as [|pr props] eqn:E; [discriminate|].
    destruct (Xml2js.blank _); [exact Hfound|].
    simpl. destruct (String.eqb local "_") eqn:Eu; [|exact Hfound].
    apply String.eqb_eq in Eu. contradiction.
Qed.

Lemma C7_element_names_stripped_witness :
  let body_elem := Xml2js.Elem "soap:Body" [] [Samples.status_payload] in
  exists x,
    get (Xml2js.value_of parserOptions body_elem) "notifyUpdated" = Some x /\
    holds (Xml2js.value_of parserOptions Samples.status_payload) x.
Proof.
  intros body_elem.
  assert (Hl : Xml2js.after_last_colon "notifyUpdated" = None) by reflexivity.
  assert (Hx : String.prefix "xmlns" ("ns" +:+ ":" +:+ "notifyUpdated") = false)
    by reflexivity.
  assert (Hu : "notifyUpdated" <> "_") by discriminate.
  assert (Hin : Samples.status_payload ∈ [Samples.status_payload]) by constructor.
  exact (proj1 (proj2 (proj2
           (C7_element_names_stripped "ns" "notifyUpdated" "soap:Body" []
              Samples.dsr [Samples.status_payload] _ Hl Hx Hu Hin)))).
Defined.


(** * Further properties of the handler and the extractor *)

(** ** What a request can receive *)

(** X1: a [newEvent] with a [logEntry] child, even an empty one, in which
    no object has a property named [toString], and no non-empty
    [notifyUpdated] beside it, is answered 200 with the event envelope. *)
Theorem X1_event_acknowledged
    (now : string) (parse : Xml2js.ParserOptions -> string -> outcome (option tree))
    (req : request) (p d : tree) :
  parse parserOptions (body req) = Ret (Some p) ->
  truthy (get_opt (soap_body p) "notifyUpdated") = false ->
  truthy (get_opt (soap_body p) "newEvent") = true ->
  get_opt (get_opt (soap_body p) "newEvent") "logEntry" = Some d ->
  plain d = true ->
  (post_handler now parse req fresh).1 = Ret tt /\
  respond now parse req = acknowledged newEvent_envelope.
Proof.
  intros Hp Hn He Hl Hplain.
  assert (Ht : truthy (Some p) = true).
  { apply soap_body_truthy. by eapply get_opt_truthy_is_Some. }
  apply (respond_of_dispatch now parse req p (Ret newEvent_envelope) Hp Ht).
  apply dispatch_newEvent; [done | done |]. rewrite Hl.
  by apply plain_event_printable.
Qed.

Lemma X1_event_acknowledged_witness :
  let req := Samples.post (Samples.to_xml Samples.event_doc) in
  let p := Xml2js.result_of parserOptions Samples.event_doc in
  let d := TObj [("family", TStr "ALARM"); ("code", TStr "17");
                 ("logData", TObj [("key", TStr "door"); ("value", TStr "open")])] in
  Samples.parser parserOptions (body req) = Ret (Some p) /\
  truthy (get_opt (soap_body p) "notifyUpdated") = false /\
  truthy (get_opt (soap_body p) "newEvent") = true /\
  get_opt (get_opt (soap_body p) "newEvent") "logEntry" = Some d /\
  plain d = true /\
  respond Samples.clock Samples.parser req = acknowledged newEvent_envelope.
Proof.
  intros req p d.
  assert (Hp : Samples.parser parserOptions (body req) = Ret (Some p))
    by (vm_compute; reflexivity).
  assert (Hn : truthy (get_opt (soap_body p) "notifyUpdated") = false)
    by (vm_compute; reflexivity).
  assert (He : truthy (get_opt (soap_body p) "newEvent") = true)
    by (vm_compute; reflexivity).
  assert (Hl : get_opt (get_opt (soap_body p) "newEvent") "logEntry" = Some d)
    by (vm_compute; reflexivity).
  assert (Hplain : plain d = true) by (vm_compute; reflexivity).
  split; [exact Hp|]. split; [exact Hn|]. split; [exact He|]. split; [exact Hl|].
  split; [exact Hplain|].
  exact (proj2 (X1_event_acknowledged Samples.clock Samples.parser req p d
                  Hp Hn He Hl Hplain)).
Defined.

(** X2: whatever the parser does and whatever the body holds, the handler
    returns without throwing and has sent exactly one of five responses:
    400 [Invalid SOAP], 500 [Internal Server Error], or 200 with the SOAP
    content type and one of the three envelopes. *)
Theorem X2_handler_always_answers
    (now : string) (parse : Xml2js.ParserOptions -> string -> outcome (option tree))
    (req : request) :
  (post_handler now parse req fresh).1 = Ret tt /\
  (respond now parse req = invalid_soap \/
   respond now parse req = internal_error \/
   exists envelope, envelope ∈ envelopes /\
                    respond now parse req = acknowledged envelope).
Proof.
  destruct (parse parserOptions (body req)) as [[p|]|e] eqn:Hp.
  - destruct (truthy (Some p)) eqn:Ht.
    + destruct (dispatch_cases (soap_body p))
        as [(_ & _ & H)|[(_ & _ & e & H)|[(_ & _ & _ & H)|[(_ & _ & _ & e & H)|(_ & _ & H)]]]];
        destruct (respond_of_dispatch now parse req p _ Hp Ht (H now)) as [Hr Hs];
        (split; [exact Hr|]); rewrite Hs; simpl.
      * right; right. exists notifyUpdated_envelope. split; [|done].
        unfold envelopes. apply elem_of_cons. by left.
      * right; by left.
      * right; right. exists newEvent_envelope. split; [|done].
        unfold envelopes. rewrite !elem_of_cons. right; by left.
      * right; by left.
      * right; right. exists unknown_envelope. split; [|done].
        unfold envelopes. rewrite !elem_of_cons. right; right; by left.
    + destruct (respond_unparsed now parse req) as [Hr Hs].
      { intros p' Hp'. rewrite Hp in Hp'. by injection Hp' as <-. }
      split; [exact Hr | by left].
  - destruct (respond_unparsed now parse req) as [Hr Hs].
    { intros p' Hp'. rewrite Hp in Hp'. discriminate. }
    split; [exact Hr | by left].
  - destruct (respond_unparsed now parse req) as [Hr Hs].
    { intros p' Hp'. rewrite Hp in Hp'. discriminate. }
    split; [exact Hr | by left].
Qed.

(** X3: when the parser resolves with [null], as it does for a blank body,
    the handler answers 400 [Invalid SOAP]; the console holds the two
    request lines and the failure line, and no parse error. *)
Theorem X3_null_parse_is_400
    (now : string) (parse : Xml2js.ParserOptions -> string -> outcome (option tree))
    (req : request) :
  parse parserOptions (body req) = Ret None ->
  respond now parse req = invalid_soap /\
  logged now parse req = request_lines req ++ [Out "❌ Failed to parse SOAP envelope"].
Proof.
  intros Hp.
  unfold respond, logged, post_handler, post_try, try_catch, bind. simpl.
  by rewrite (parseXML_resolved _ _ _ _ Hp).
Qed.

Lemma X3_null_parse_is_400_witness :
  let req := Samples.post "  " in
  Samples.parser parserOptions (body req) = Ret None /\
  respond Samples.clock Samples.parser req = invalid_soap.
Proof.
  intros req.
  assert (Hp : Samples.parser parserOptions (body req) = Ret None) by reflexivity.
  split; [exact Hp|].
  exact (proj1 (X3_null_parse_is_400 Samples.clock Samples.parser req Hp)).
Defined.

(** X4: the handler answers 500 exactly when the body parsed and the
    node of the branch taken cannot be logged to the end: under a
    non-empty [notifyUpdated], an [accessPoint] that is absent or empty,
    or has an attribute name, a printed field or a printed attribute value
    that cannot be coerced to a string; or, with no non-empty
    [notifyUpdated], under a non-empty [newEvent], a [logEntry] that is
    absent or has such a printed field or [logData] item. *)
Theorem X4_internal_error_iff
    (now : string) (parse : Xml2js.ParserOptions -> string -> outcome (option tree))
    (req : request) :
  respond now parse req = internal_error <->
  exists p, parse parserOptions (body req) = Ret (Some p) /\
    ((truthy (get_opt (soap_body p) "notifyUpdated") = true /\
      status_printable
        (get_opt (get_opt (soap_body p) "notifyUpdated") "accessPoint") = false) \/
     (truthy (get_opt (soap_body p) "notifyUpdated") = false /\
      truthy (get_opt (soap_body p) "newEvent") = true /\
      event_printable
        (get_opt (get_opt (soap_body p) "newEvent") "logEntry") = false)).
Proof.
  split.
  - intros H500.
    destruct (parse parserOptions (body req)) as [[p|]|e] eqn:Hp.
    + destruct (truthy (Some p)) eqn:Ht.
      * exists p. split; [done|].
        destruct (dispatch_cases (soap_body p))
          as [(_ & _ & H)|[(Hn & Ha & _)|[(_ & _ & _ & H)|[(Hn & He & Hl & _)|(_ & _ & H)]]]];
          [ | by left | | right; by repeat split | ];
          destruct (respond_of_dispatch now parse req p _ Hp Ht (H now)) as [_ Hs];
          rewrite Hs in H500; discriminate.
      * destruct (respond_unparsed now parse req) as [_ Hs].
        { intros p' Hp'. rewrite Hp in Hp'. by injection Hp' as <-. }
        rewrite Hs in H500. discriminate.
    + destruct (respond_unparsed now parse req) as [_ Hs].
      { intros p' Hp'. rewrite Hp in Hp'. discriminate. }
      rewrite Hs in H500. discriminate.
    + destruct (respond_unparsed now parse req) as [_ Hs].
      { intros p' Hp'. rewrite Hp in Hp'. discriminate. }
      rewrite Hs in H500. discriminate.
  - intros (p & Hp & [(Hn & Ha)|(Hn & He & Hl)]).
    + assert (Ht : truthy (Some p) = true).
      { apply soap_body_truthy. by eapply get_opt_truthy_is_Some. }
      destruct (dispatch_notifyUpdated_throws now (soap_body p) Hn Ha) as [e Hthrow].
      by destruct (respond_of_dispatch now parse req p _ Hp Ht Hthrow) as [_ ->].
    + assert (Ht : truthy (Some p) = true).
      { apply soap_body_truthy. by eapply get_opt_truthy_is_Some. }
      destruct (dispatch_newEvent_throws now (soap_body p) Hn He Hl) as [e Hthrow].
      by destruct (respond_of_dispatch now parse req p _ Hp Ht Hthrow) as [_ ->].
Qed.

(** X5: the response depends on the request body alone (and on the
    parser): the path, the [Action] and [SOAPAction] headers and the clock
    only reach the console. *)
Theorem X5_response_depends_on_body_only
    (now now' : string) (parse : Xml2js.ParserOptions -> string -> outcome (option tree))
    (req req' : request) :
  body req = body req' ->
  respond now parse req = respond now' parse req'.
Proof.
  intros Hb.
  destruct (parse parserOptions (body req)) as [[p|]|e] eqn:Hp.
  - assert (Hp' : parse parserOptions (body req') = Ret (Some p)) by by rewrite <- Hb.
    destruct (truthy (Some p)) eqn:Ht.
    + destruct (dispatch_cases (soap_body p))
        as [(_ & _ & H)|[(_ & _ & e & H)|[(_ & _ & _ & H)|[(_ & _ & _ & e & H)|(_ & _ & H)]]]];
        destruct (respond_of_dispatch now parse req p _ Hp Ht (H now)) as [_ ->];
        destruct (respond_of_dispatch now' parse req' p _ Hp' Ht (H now')) as [_ ->];
        reflexivity.
    + destruct (respond_unparsed now parse req) as [_ ->].
      { intros p' Hq. rewrite Hp in Hq. by injection Hq as <-. }
      destruct (respond_unparsed now' parse req') as [_ ->]; [|done].
      intros p' Hq. rewrite Hp' in Hq. by injection Hq as <-.
  - destruct (respond_unparsed now parse req) as [_ ->].
    { intros p' Hq. rewrite Hp in Hq. discriminate. }
    destruct (respond_unparsed now' parse req') as [_ ->]; [|done].
    intros p' Hq. rewrite <- Hb, Hp in Hq. discriminate.
  - destruct (respond_unparsed now parse req) as [_ ->].
    { intros p' Hq. rewrite Hp in Hq. discriminate. }
    destruct (respond_unparsed now' parse req') as [_ ->]; [|done].
    intros p' Hq. rewrite <- Hb, Hp in Hq. discriminate.
Qed.

Lemma X5_response_depends_on_body_only_witness :
  let req := Samples.post (Samples.to_xml Samples.status_doc) in
  let req' := {| path := "/other";
                 headers := {[ "soapaction" := "urn:notifyUpdated" ]};
                 body := Samples.to_xml Samples.status_doc |} in
  body req = body req' /\
  respond "2025-06-30T12:00:00.000Z" Samples.parser req'
    = respond Samples.clock Samples.parser req.
Proof.
  intros req req'.
  assert (Hb : body req' = body req) by reflexivity.
  split; [by symmetry|].
  exact (X5_response_depends_on_body_only "2025-06-30T12:00:00.000Z" Samples.clock
           Samples.parser req' req Hb).
Defined.

(** ** What a request leaves on the console *)

(** X6: for a [newEvent] whose template literals all evaluate, the console
    holds, after the two request lines and between banner and footer, the
    heading, the four fields of the log entry with [N/A] for a missing or
    empty one, and then, only when [logData] is non-empty, a header and one
    [key: value] line per entry in document order. *)
Theorem X6_event_console
    (now : string) (parse : Xml2js.ParserOptions -> string -> outcome (option tree))
    (req : request) (p d : tree) (ls : list log_entry) :
  parse parserOptions (body req) = Ret (Some p) ->
  truthy (get_opt (soap_body p) "notifyUpdated") = false ->
  truthy (get_opt (soap_body p) "newEvent") = true ->
  get_opt (get_opt (soap_body p) "newEvent") "logEntry" = Some d ->
  event_lines d = Some ls ->
  logged now parse req = request_lines req ++ banner now "newEvent" ++ ls ++ footer.
Proof.
  intros Hp Hn He Hl Hls.
  assert (Ht : truthy (Some p) = true).
  { apply soap_body_truthy. by eapply get_opt_truthy_is_Some. }
  apply (logged_of_dispatch now parse req p newEvent_envelope _ Hp Ht).
  by eapply dispatch_newEvent_logs.
Qed.

Lemma X6_event_console_witness :
  let req := Samples.post (Samples.to_xml Samples.event_doc) in
  let p := Xml2js.result_of parserOptions Samples.event_doc in
  let d := TObj [("family", TStr "ALARM"); ("code", TStr "17");
                 ("logData", TObj [("key", TStr "door"); ("value", TStr "open")])] in
  let ls := [ Out "📋 Event Information:";
              Out "   Origin: N/A";
              Out "   Family: ALARM";
              Out "   Code: 17";
              Out "   Timestamp: N/A";
              Out (nl +:+ "📋 Log Data:");
              Out "   door: open" ] in
  get_opt (get_opt (soap_body p) "newEvent") "logEntry" = Some d /\
  event_lines d = Some ls /\
  logged Samples.clock Samples.parser req =
    request_lines req ++ banner Samples.clock "newEvent" ++ ls ++ footer.
Proof.
  intros req p d ls.
  assert (Hp : Samples.parser parserOptions (body req) = Ret (Some p))
    by (vm_compute; reflexivity).
  assert (Hn : truthy (get_opt (soap_body p) "notifyUpdated") = false)
    by (vm_compute; reflexivity).
  assert (He : truthy (get_opt (soap_body p) "newEvent") = true)
    by (vm_compute; reflexivity).
  assert (Hl : get_opt (get_opt (soap_body p) "newEvent") "logEntry" = Some d)
    by (vm_compute; reflexivity).
  assert (Hls : event_lines d = Some ls) by (vm_compute; reflexivity).
  split; [exact Hl|]. split; [exact Hls|].
  exact (X6_event_console Samples.clock Samples.parser req p d ls Hp Hn He Hl Hls).
Defined.

(** X7: for a [notifyUpdated] whose [accessPoint] extracts to a status
    record and whose template literals all evaluate, the console holds,
    after the two request lines and between banner and footer, the six
    fields of the status and then, only when the attribute object has own
    names, a header, the firmware names that read truthy, in their fixed
    order, and the other own names in the order of [Object.keys]:
    array-index names ascending, then the rest as first stored. *)
Theorem X7_status_console
    (now : string) (parse : Xml2js.ParserOptions -> string -> outcome (option tree))
    (req : request) (p : tree) (st : status) (ls : list log_entry) :
  parse parserOptions (body req) = Ret (Some p) ->
  truthy (get_opt (soap_body p) "notifyUpdated") = true ->
  extractFirmwareStatus
    (get_opt (get_opt (soap_body p) "notifyUpdated") "accessPoint") = Ret (Some st) ->
  status_lines st = Some ls ->
  logged now parse req =
    request_lines req ++ banner now "notifyUpdated" ++ ls ++ footer.
Proof.
  intros Hp Hn Hst Hls.
  assert (Ht : truthy (Some p) = true).
  { apply soap_body_truthy. by eapply get_opt_truthy_is_Some. }
  apply (logged_of_dispatch now parse req p notifyUpdated_envelope _ Hp Ht).
  by eapply dispatch_notifyUpdated_logs.
Qed.

Lemma X7_status_console_witness :
  let p := TObj [("Envelope", TObj [("Body", TObj [("notifyUpdated", TObj [("accessPoint",
             TObj [("id", TStr "AP-100");
                   ("accessPointAttributes",
                    TObj [("attributes",
                           TArr [TObj [("name", TStr "MODE"); ("value", TStr "office")];
                                 TObj [("name", TStr "10"); ("value", TStr "ten")];
                                 TObj [("name", TStr "FIRMWARE_VERSION");
                                       ("value", TStr "2.1.0")];
                                 TObj [("name", TStr "2"); ("value", TStr "two")]])])])])])])] in
  let parse := fun (_ : Xml2js.ParserOptions) (_ : string) => Ret (Some p) in
  let req := Samples.post "<status/>" in
  let st := {| accessPointId := TStr "AP-100";
               serialNumber := TStr "N/A";
               online := TStr "N/A";
               syncStatus := TStr "N/A";
               firmwareUpgradeStatus := TStr "N/A";
               timeOfLastFirmwareUpgrade := TStr "N/A";
               attributes := {| own := [("MODE", Some (TStr "office"));
                                        ("10", Some (TStr "ten"));
                                        ("FIRMWARE_VERSION", Some (TStr "2.1.0"));
                                        ("2", Some (TStr "two"))];
                                proto := None |} |} in
  let ls := [ Out "📱 Access Point Information:";
              Out "   ID: AP-100";
              Out "   Serial: N/A";
              Out "   Online: N/A";
              Out "   Sync Status: N/A";
              Out (nl +:+ "🔧 Firmware Status:");
              Out "   Upgrade Status: N/A";
              Out "   Last Update: N/A";
              Out (nl +:+ "📊 Attributes:");
              Out "   FIRMWARE_VERSION: 2.1.0";
              Out "   2: two";
              Out "   10: ten";
              Out "   MODE: office" ] in
  extractFirmwareStatus
    (get_opt (get_opt (soap_body p) "notifyUpdated") "accessPoint") = Ret (Some st) /\
  status_lines st = Some ls /\
  logged Samples.clock parse req =
    request_lines req ++ banner Samples.clock "notifyUpdated" ++ ls ++ footer.
Proof.
  intros p parse req st ls.
  assert (Hp : parse parserOptions (body req) = Ret (Some p)) by reflexivity.
  assert (Hn : truthy (get_opt (soap_body p) "notifyUpdated") = true) by reflexivity.
  assert (Hst : extractFirmwareStatus
                  (get_opt (get_opt (soap_body p) "notifyUpdated") "accessPoint")
                = Ret (Some st)) by (vm_compute; reflexivity).
  assert (Hls : status_lines st = Some ls) by (vm_compute; reflexivity).
  split; [exact Hst|]. split; [exact Hls|].
  exact (X7_status_console Samples.clock parse req p st ls Hp Hn Hst Hls).
Defined.

(** ** The extractor and the attribute object *)

(** X8: [extractFirmwareStatus] returns its [null] for an absent or empty
    access point, and only for those; when it returns a record, each of
    the six scalar fields is the property of the access point it is read
    from if that property is truthy, and the placeholder [N/A] if the
    property is missing or empty. *)
Theorem X8_status_null_or_filled (accessPoint : jsval) :
  (truthy accessPoint = false -> extractFirmwareStatus accessPoint = Ret None) /\
  (forall ap st,
     accessPoint = Some ap ->
     extractFirmwareStatus accessPoint = Ret (Some st) ->
     truthy accessPoint = true /\
     Forall (fun kf =>
               (truthy (get ap kf.1) = true -> get ap kf.1 = Some kf.2) /\
               (truthy (get ap kf.1) = false -> kf.2 = TStr "N/A"))
            (scalar_fields st)) /\
  (truthy accessPoint = true -> extractFirmwareStatus accessPoint <> Ret None).
Proof.
  split; [apply extractFirmwareStatus_falsy|]. split.
  - intros ap st -> Hst.
    destruct (truthy (Some ap)) eqn:Ht;
      [|by rewrite (extractFirmwareStatus_falsy _ Ht) in Hst].
    split; [done|].
    unfold extractFirmwareStatus in Hst. rewrite Ht in Hst. simpl negb in Hst.
    cbv iota zeta in Hst.
    match type of Hst with
    | context [match ?f with Ret _ => _ | Throw _ => _ end] => destruct f as [o|e]
    end; [|discriminate].
    injection Hst as <-. unfold scalar_fields.
    cbn [accessPointId serialNumber online syncStatus
         firmwareUpgradeStatus timeOfLastFirmwareUpgrade].
    assert (H : forall k, (truthy (get ap k) = true -> get ap k = Some (or_lit (get ap k) "N/A"))
                       /\ (truthy (get ap k) = false -> or_lit (get ap k) "N/A" = TStr "N/A")).
    { intros k. unfold or_lit. destruct (get ap k) as [t|]; [|by split].
      split; intros Hk; by rewrite Hk. }
    repeat constructor; simpl; apply H.
  - intros Ht. unfold extractFirmwareStatus.
    destruct accessPoint as [ap|]; [|discriminate]. rewrite Ht. simpl negb.
    cbv iota zeta.
    match goal with
    | |- context [match ?f with Ret _ => _ | Throw _ => _ end] => destruct f as [o|e]
    end; discriminate.
Qed.

Lemma X8_status_null_or_filled_witness :
  let ap := TObj [("id", TStr "AP-100"); ("online", TStr "")] in
  exists st, extractFirmwareStatus (Some ap) = Ret (Some st) /\
             accessPointId st = TStr "AP-100" /\
             online st = TStr "N/A" /\
             Forall (fun kf =>
                       (truthy (get ap kf.1) = true -> get ap kf.1 = Some kf.2) /\
                       (truthy (get ap kf.1) = false -> kf.2 = TStr "N/A"))
                    (scalar_fields st).
Proof.
  intros ap. eexists. split; [reflexivity|]. split; [reflexivity|]. split; [reflexivity|].
  exact (proj2 (proj1 (proj2 (X8_status_null_or_filled (Some ap))) ap _ eq_refl eq_refl)).
Defined.

Lemma fold_attr_step_lookup (entries : list tree) (o o' : js_object) (n : string) :
  n <> "__proto__" ->
  fold_outcome attr_step o entries = Ret o' ->
  assoc n (own o') =
  match last_binding n entries with
  | Some v => Some v
  | None => assoc n (own o)
  end.
Proof.
  intros Hn. revert o. induction entries as [|e entries IH]; intros o Hfold; simpl in *.
  - by injection Hfold as <-.
  - destruct (attr_step o e) as [o1|err] eqn:Hstep; [|discriminate].
    rewrite (IH o1 Hfold). destruct (last_binding n entries) as [v|]; [done|].
    destruct (decide (attr_key e = Some n)) as [Hk|Hk].
    + rewrite (attr_step_keyed o e n Hk) in Hstep. injection Hstep as <-.
      by apply assign_lookup_eq.
    + by eapply attr_step_other.
Qed.

Lemma assoc_Some_key {V : Type} (k : string) (ps : list (string * V)) (v : V) :
  assoc k ps = Some v -> k ∈ map fst ps.
Proof.
  induction ps as [|[k' v'] ps IH]; simpl; [discriminate|].
  destruct (String.eqb k k') eqn:E.
  - apply String.eqb_eq in E. subst k'. intros _. by left.
  - intros H. right. by apply IH.
Qed.

Lemma last_binding_is_Some (n : string) (entries : list tree) :
  is_Some (last_binding n entries) <->
  exists e, e ∈ entries /\ attr_key e = Some n.
Proof.
  induction entries as [|e entries IH]; simpl.
  - split; [by intros [? ?] | intros (e & He & _); by apply elem_of_nil in He].
  - destruct (last_binding n entries) as [v|] eqn:E.
    + split; [|eauto]. intros _.
      destruct (proj1 IH (ltac:(eauto))) as (e' & He' & Hk).
      exists e'. split; [by right | done].
    + destruct (decide (attr_key e = Some n)) as [Hk|Hk].
      * split; [|eauto]. intros _. exists e. split; [by left | done].
      * split; [by intros [? ?]|].
        intros (e' & He' & Hk'). apply elem_of_cons in He' as [->|He']; [done|].
        apply IH. eauto.
Qed.

(** X9: when the attribute loop completes, the attribute object has a
    property of a given name other than [__proto__] exactly when some
    entry carries that name, and its value is that of the last such entry;
    a name that no entry carries is absent, and so is [__proto__]. *)
Theorem X9_attribute_lookup (attrs : tree) (o : js_object) (n : string) :
  normalize_attributes attrs = Ret o ->
  (n <> "__proto__" -> assoc n (own o) = last_binding n (as_array attrs)) /\
  (n <> "__proto__" ->
   (is_Some (bindings o !! n) <-> exists e, e ∈ as_array attrs /\ attr_key e = Some n)) /\
  assoc "__proto__" (own o) = None.
Proof.
  intros Hrun.
  assert (H : n <> "__proto__" -> assoc n (own o) = last_binding n (as_array attrs)).
  { intros Hn. unfold normalize_attributes in Hrun.
    rewrite (fold_attr_step_lookup _ _ _ n Hn Hrun).
    by destruct (last_binding n (as_array attrs)). }
  split; [exact H|]. split.
  - intros Hn. rewrite bindings_lookup, (H Hn). apply last_binding_is_Some.
  - destruct (keys_ok_fold _ _ _ Hrun keys_ok_empty) as [_ Hp].
    destruct (assoc "__proto__" (own o)) as [v|] eqn:Hv; [|done].
    exfalso. apply Hp. by eapply assoc_Some_key.
Qed.

Lemma X9_attribute_lookup_witness :
  let attrs := TArr [TObj [("name", TStr "MODE"); ("value", TStr "office")];
                     TObj [("name", TStr "__proto__"); ("value", TStr "x")];
                     TObj [("value", TStr "stray")];
                     TObj [("NAME", TStr "MODE"); ("VALUE", TStr "home")]] in
  let o := {| own := [("MODE", Some (TStr "home"))]; proto := None |} in
  normalize_attributes attrs = Ret o /\
  assoc "MODE" (own o) = last_binding "MODE" (as_array attrs).
Proof.
  intros attrs o.
  assert (Hrun : normalize_attributes attrs = Ret o) by reflexivity.
  assert (Hn : "MODE" <> "__proto__") by discriminate.
  split; [exact Hrun|].
  exact (proj1 (X9_attribute_lookup attrs o "MODE" Hrun) Hn).
Defined.

Lemma fold_attr_step_length (entries : list tree) (o o' : js_object) :
  fold_outcome attr_step o entries = Ret o' ->
  length (own o') <= length (own o) + length entries.
Proof.
  revert o. induction entries as [|e entries IH]; intros o Hfold; simpl in *.
  - injection Hfold as <-. lia.
  - destruct (attr_step o e) as [o1|err] eqn:Hstep; [|discriminate].
    pose proof (IH o1 Hfold) as Hle.
    assert (length (own o1) <= S (length (own o))); [|lia].
    destruct (attr_step_Ret _ _ _ Hstep) as [[_ ->]|(key & _ & ->)]; [lia|].
    unfold assign. destruct (String.eqb key "__proto__").
    + destruct (attr_value e) as [[s|props|items]|]; simpl; lia.
    + simpl. apply length_prop_set.
Qed.

Lemma size_list_to_map_le (ps : list (string * jsval)) :
  size (list_to_map ps : gmap string jsval) <= length ps.
Proof.
  induction ps as [|[k v] ps IH]; simpl; [by rewrite map_size_empty|].
  rewrite map_size_insert.
  destruct (list_to_map ps !! k); simpl; lia.
Qed.

(** X10: when the attribute loop completes, the attribute object never has
    more properties than the notification has attribute entries. *)
Theorem X10_attribute_count_bounded (attrs : tree) (o : js_object) :
  normalize_attributes attrs = Ret o ->
  length (own o) <= length (as_array attrs) /\
  size (bindings o) <= length (as_array attrs).
Proof.
  intros Hrun. unfold normalize_attributes in Hrun.
  pose proof (fold_attr_step_length _ _ _ Hrun) as Hle. simpl in Hle.
  split; [exact Hle|].
  etrans; [apply size_list_to_map_le | exact Hle].
Qed.

Lemma X10_attribute_count_bounded_witness :
  let attrs := TArr [TObj [("name", TStr "MODE"); ("value", TStr "office")];
                     TObj [("name", TStr "MODE"); ("value", TStr "home")];
                     TStr "stray text"] in
  let o := {| own := [("MODE", Some (TStr "home"))]; proto := None |} in
  normalize_attributes attrs = Ret o /\ length (own o) <= 3.
Proof.
  intros attrs o.
  assert (Hrun : normalize_attributes attrs = Ret o) by reflexivity.
  split; [exact Hrun|].
  exact (proj1 (X10_attribute_count_bounded attrs o Hrun)).
Defined.

(** ** The attribute object as a map from names to values *)

Lemma bindings_prop_set (k : string) (v : jsval) (ps : list (string * jsval)) :
  (list_to_map (prop_set k v ps) : gmap string jsval) = <[k:=v]> (list_to_map ps).
Proof.
  induction ps as [|[k' v'] ps IH]; simpl; [done|].
  destruct (String.eqb k k') eqn:E.
  - apply String.eqb_eq in E. subst k'. simpl. by rewrite insert_insert_eq.
  - simpl. rewrite IH. apply insert_insert_ne.
    intros ->. by rewrite String.eqb_refl in E.
Qed.

Lemma bindings_assign (key : string) (v : jsval) (o : js_object) :
  key <> "__proto__" ->
  bindings (assign key v o) = <[key:=v]> (bindings o) /\
  proto (assign key v o) = proto o.
Proof.
  intros Hk. rewrite assign_own_eq by done. unfold bindings. simpl.
  by rewrite bindings_prop_set.
Qed.

Lemma bindings_assign_proto (v : jsval) (o : js_object) :
  bindings (assign "__proto__" v o) = bindings o /\
  proto (assign "__proto__" v o) =
    later_proto (proto o) (proto (assign "__proto__" v empty_object)).
Proof. unfold assign. simpl. by destruct v as [[s|props|items]|]. Qed.

Lemma assign_alike (key : string) (v : jsval) (o1 o2 : js_object) :
  bindings o1 = bindings o2 -> proto o1 = proto o2 ->
  bindings (assign key v o1) = bindings (assign key v o2) /\
  proto (assign key v o1) = proto (assign key v o2).
Proof.
  intros Hb Hp. destruct (decide (key = "__proto__")) as [->|Hk].
  - destruct (bindings_assign_proto v o1) as [-> ->].
    destruct (bindings_assign_proto v o2) as [-> ->]. by rewrite Hb, Hp.
  - destruct (bindings_assign key v o1 Hk) as [-> ->].
    destruct (bindings_assign key v o2 Hk) as [-> ->]. by rewrite Hb, Hp.
Qed.

Lemma assign_swap (k1 k2 : string) (v1 v2 : jsval) (o : js_object) :
  k1 <> k2 ->
  bindings (assign k1 v1 (assign k2 v2 o)) = bindings (assign k2 v2 (assign k1 v1 o)) /\
  proto (assign k1 v1 (assign k2 v2 o)) = proto (assign k2 v2 (assign k1 v1 o)).
Proof.
  intros Hne.
  destruct (decide (k1 = "__proto__")) as [->|H1];
    destruct (decide (k2 = "__proto__")) as [->|H2]; [done| | |].
  - destruct (bindings_assign_proto v1 (assign k2 v2 o)) as [-> ->].
    destruct (bindings_assign k2 v2 (assign "__proto__" v1 o) H2) as [-> ->].
    destruct (bindings_assign k2 v2 o H2) as [-> ->].
    by destruct (bindings_assign_proto v1 o) as [-> ->].
  - destruct (bindings_assign_proto v2 (assign k1 v1 o)) as [-> ->].
    destruct (bindings_assign k1 v1 (assign "__proto__" v2 o) H1) as [-> ->].
    destruct (bindings_assign k1 v1 o H1) as [-> ->].
    by destruct (bindings_assign_proto v2 o) as [-> ->].
  - destruct (bindings_assign k1 v1 (assign k2 v2 o) H1) as [-> ->].
    destruct (bindings_assign k2 v2 (assign k1 v1 o) H2) as [-> ->].
    destruct (bindings_assign k2 v2 o H2) as [-> ->].
    destruct (bindings_assign k1 v1 o H1) as [-> ->].
    split; [|done]. by apply insert_insert_ne.
Qed.

(** The three kinds of entry: skipped, throwing, stored. *)
Lemma attr_step_cases (e : tree) :
  (attr_key e = None /\ forall o, attr_step o e = Ret o) \/
  (attr_key e = None /\ forall o, attr_step o e = Throw coercion_error) \/
  (exists key, attr_key e = Some key /\
               forall o, attr_step o e = Ret (assign key (attr_value e) o)).
Proof.
  unfold attr_step, attr_key. destruct (truthy (attr_name e)).
  - destruct (render (attr_name e)) as [key|].
    + right; right. by exists key.
    + right; left. done.
  - left. done.
Qed.

Lemma alike_trans (r1 r2 r3 : outcome js_object) :
  alike r1 r2 -> alike r2 r3 -> alike r1 r3.
Proof.
  destruct r1, r2, r3; simpl; try done.
  - intros [-> ->] [-> ->]. done.
  - congruence.
Qed.

Lemma fold_attr_step_alike (l : list tree) (o1 o2 : js_object) :
  bindings o1 = bindings o2 -> proto o1 = proto o2 ->
  alike (fold_outcome attr_step o1 l) (fold_outcome attr_step o2 l).
Proof.
  revert o1 o2. induction l as [|e l IH]; intros o1 o2 Hb Hp; simpl; [done|].
  destruct (attr_step_cases e) as [[_ H]|[[_ H]|(key & _ & H)]]; rewrite !H.
  - by apply IH.
  - done.
  - by apply IH; apply assign_alike.
Qed.

Lemma fold_attr_step_permutation (l l' : list tree) :
  l ≡ₚ l' -> NoDup (omap attr_key l) ->
  forall o1 o2, bindings o1 = bindings o2 -> proto o1 = proto o2 ->
  alike (fold_outcome attr_step o1 l) (fold_outcome attr_step o2 l').
Proof.
  induction 1 as [|x l l' Hperm IH|x y l|l l' l'' H1 IH1 H2 IH2];
    intros Hnd o1 o2 Hb Hp.
  - done.
  - simpl. simpl in Hnd.
    destruct (attr_step_cases x) as [[Hk H]|[[Hk H]|(key & Hk & H)]];
      rewrite !H; rewrite Hk in Hnd; simpl in Hnd.
    + by apply IH.
    + done.
    + apply NoDup_cons in Hnd as [_ Hnd]. by apply IH; [|apply assign_alike..].
  - simpl. simpl in Hnd.
    destruct (attr_step_cases x) as [[Hx H]|[[Hx H]|(kx & Hx & H)]];
      destruct (attr_step_cases y) as [[Hy H']|[[Hy H']|(ky & Hy & H')]];
      rewrite !H, !H'; try rewrite !H; try done;
      try (by apply fold_attr_step_alike);
      try (by apply fold_attr_step_alike; apply assign_alike).
    rewrite Hx, Hy in Hnd. simpl in Hnd.
    assert (Hne : kx <> ky).
    { intros ->. apply NoDup_cons in Hnd as [Hin _]. apply Hin. by left. }
    destruct (assign_swap kx ky (attr_value x) (attr_value y) o1 Hne) as [Hb' Hp'].
    destruct (assign_alike kx (attr_value x) o1 o2 Hb Hp) as [Hb1 Hp1].
    destruct (assign_alike ky (attr_value y) _ _ Hb1 Hp1) as [Hb2 Hp2].
    apply fold_attr_step_alike; [by rewrite Hb' | by rewrite Hp'].
  - eapply alike_trans.
    + by apply (IH1 Hnd o1 o1).
    + apply IH2; [|done..]. by rewrite <- H1.
Qed.

(** X11: when no two entries carry the same name, the outcome of the
    attribute loop does not depend on the order of the entries: the two
    orders complete with the same properties name by name and the same
    prototype, or they throw the same exception. *)
Theorem X11_attribute_order_irrelevant (l l' : list tree) :
  l ≡ₚ l' -> NoDup (omap attr_key l) ->
  alike (normalize_attributes (TArr l)) (normalize_attributes (TArr l')).
Proof.
  intros Hperm Hnd. unfold normalize_attributes. simpl.
  by apply fold_attr_step_permutation.
Qed.

Lemma X11_attribute_order_irrelevant_witness :
  let a := TObj [("name", TStr "FIRMWARE_VERSION"); ("value", TStr "2.1.0")] in
  let b := TObj [("Name", TStr "MODE"); ("Value", TStr "office")] in
  let c := TStr "stray text" in
  alike (normalize_attributes (TArr [a; c; b])) (normalize_attributes (TArr [b; a; c])).
Proof.
  intros a b c.
  assert (Hperm : [a; c; b] ≡ₚ [b; a; c]).
  { change ([a; c] ++ [b] ≡ₚ [b] ++ [a; c]). apply Permutation_app_comm. }
  assert (Hnd : NoDup (omap attr_key [a; c; b])).
  { change (NoDup ["FIRMWARE_VERSION"; "MODE"]).
    apply NoDup_cons. split.
    - intros H. apply list_elem_of_singleton in H. discriminate.
    - apply NoDup_singleton. }
  exact (X11_attribute_order_irrelevant [a; c; b] [b; a; c] Hperm Hnd).
Defined.

Lemma fold_attr_step_Throw (l : list tree) (o : js_object) (e : exn) :
  fold_outcome attr_step o l = Throw e ->
  e = coercion_error /\ forall o', fold_outcome attr_step o' l = Throw coercion_error.
Proof.
  revert o. induction l as [|x l IH]; intros o; simpl; [discriminate|].
  destruct (attr_step_cases x) as [[_ H]|[[_ H]|(key & _ & H)]]; rewrite H.
  - intros Hf. destruct (IH _ Hf) as [-> Hall]. split; [done|].
    intros o'. rewrite H. apply Hall.
  - intros [= <-]. split; [done|]. intros o'. by rewrite H.
  - intros Hf. destruct (IH _ Hf) as [-> Hall]. split; [done|].
    intros o'. rewrite H. apply Hall.
Qed.

Lemma fold_attr_step_onto (l : list tree) (a b o1 o2 : js_object) :
  bindings b = bindings a ∪ bindings o1 ->
  proto b = later_proto (proto o1) (proto a) ->
  fold_outcome attr_step a l = Ret o2 ->
  exists o, fold_outcome attr_step b l = Ret o /\
            bindings o = bindings o2 ∪ bindings o1 /\
            proto o = later_proto (proto o1) (proto o2).
Proof.
  revert a b. induction l as [|x l IH]; intros a b Hb Hp; simpl.
  - intros [= <-]. by exists b.
  - destruct (attr_step_cases x) as [[_ H]|[[_ H]|(key & _ & H)]]; rewrite !H.
    + by apply IH.
    + discriminate.
    + apply IH.
      * destruct (decide (key = "__proto__")) as [->|Hk].
        -- destruct (bindings_assign_proto (attr_value x) a) as [-> _].
           by destruct (bindings_assign_proto (attr_value x) b) as [-> _].
        -- destruct (bindings_assign key (attr_value x) a Hk) as [-> _].
           destruct (bindings_assign key (attr_value x) b Hk) as [-> _].
           rewrite Hb. by rewrite insert_union_l.
      * destruct (decide (key = "__proto__")) as [->|Hk].
        -- destruct (bindings_assign_proto (attr_value x) a) as [_ ->].
           destruct (bindings_assign_proto (attr_value x) b) as [_ ->].
           rewrite Hp.
           by destruct (proto (assign "__proto__" (attr_value x) empty_object)),
                       (proto a), (proto o1).
        -- destruct (bindings_assign key (attr_value x) a Hk) as [_ ->].
           by destruct (bindings_assign key (attr_value x) b Hk) as [_ ->].
Qed.

(** X12: the attribute loop over two entry lists one after the other
    completes exactly when it completes over each; its object then has the
    properties of the second list completed by those of the first, entries
    of the second list taking precedence name by name, and the prototype
    the second list set, or else the one the first set.  Otherwise it
    throws the coercion error. *)
Theorem X12_attributes_of_concatenation (l1 l2 : list tree) :
  match normalize_attributes (TArr l1), normalize_attributes (TArr l2) with
  | Ret o1, Ret o2 =>
      exists o, normalize_attributes (TArr (l1 ++ l2)) = Ret o /\
                bindings o = bindings o2 ∪ bindings o1 /\
                proto o = later_proto (proto o1) (proto o2)
  | _, _ => normalize_attributes (TArr (l1 ++ l2)) = Throw coercion_error
  end.
Proof.
  unfold normalize_attributes. simpl. rewrite fold_outcome_app.
  destruct (fold_outcome attr_step empty_object l1) as [o1|e1] eqn:H1.
  - destruct (fold_outcome attr_step empty_object l2) as [o2|e2] eqn:H2.
    + apply (fold_attr_step_onto l2 empty_object o1 o1 o2); [|done|done].
      unfold bindings at 2. simpl. by rewrite (left_id_L ∅ (∪)).
    + by destruct (fold_attr_step_Throw _ _ _ H2) as [_ ->].
  - by destruct (fold_attr_step_Throw _ _ _ H1) as [-> _].
Qed.

(** ** The keys of the attribute object *)

Lemma insert_index_Permutation (n : N) (k : string) (l : list (N * string)) :
  insert_index n k l ≡ₚ (n, k) :: l.
Proof.
  induction l as [|[n' k'] l IH]; simpl; [done|].
  destruct (N.leb n n'); [done|].
  rewrite IH. apply perm_swap.
Qed.

Lemma own_keys_Permutation (ps : list (string * jsval)) :
  own_keys ps ≡ₚ map fst ps.
Proof.
  unfold own_keys. induction ps as [|[k v] ps IH]; simpl; [done|].
  destruct (array_index k) as [n|] eqn:E; simpl.
  - rewrite insert_index_Permutation. simpl. by rewrite IH.
  - rewrite <- Permutation_middle. by rewrite IH.
Qed.

Lemma filter_sublist {A} (c : A -> bool) (l : list A) :
  sublist (List.filter c l) l.
Proof.
  induction l as [|x l IH]; simpl; [constructor|].
  destruct (c x); by constructor.
Qed.

Lemma not_firmware_iff (key : string) :
  negb (existsb (String.eqb key) firmwareAttrs) = true <-> key ∉ firmwareAttrs.
Proof.
  rewrite negb_true_iff, <- not_true_iff_false, existsb_exists.
  split; intros H Hin; apply H.
  - exists key. split; [by apply list_elem_of_In | apply String.eqb_refl].
  - destruct Hin as (x & Hx & Heq). apply String.eqb_eq in Heq. subst x.
    by apply list_elem_of_In.
Qed.

(** X13: when the attribute loop completes, the own names of the attribute
    object are pairwise distinct and [Object.keys] lists each of them once;
    the loop over the remaining attributes evaluates one template literal
    for each own name that is not one of the six firmware names, in the
    order of [Object.keys], and none for a firmware name. *)
Theorem X13_other_attributes_listed (attrs : tree) (o : js_object) :
  normalize_attributes attrs = Ret o ->
  own_keys (own o) ≡ₚ map fst (own o) /\
  NoDup (own_keys (own o)) /\
  exists ks,
    emits (for_each (log_other_attr o) (own_keys (own o))) (map (attr_line o) ks) /\
    sublist ks (own_keys (own o)) /\
    NoDup ks /\
    forall key, key ∈ ks <-> is_Some (bindings o !! key) /\ key ∉ firmwareAttrs.
Proof.
  intros Hrun.
  destruct (keys_ok_fold _ _ _ Hrun keys_ok_empty) as [Hnd _].
  pose proof (own_keys_Permutation (own o)) as Hperm.
  assert (Hnd' : NoDup (own_keys (own o))).
  { by rewrite Hperm. }
  split; [exact Hperm|]. split; [exact Hnd'|].
  exists (List.filter (fun key => negb (existsb (String.eqb key) firmwareAttrs))
                      (own_keys (own o))).
  split; [|split; [|split]].
  - apply (emits_for_each_if
             (fun key => negb (existsb (String.eqb key) firmwareAttrs)) (attr_line o)).
  - apply filter_sublist.
  - eapply sublist_NoDup; [exact Hnd' | apply filter_sublist].
  - intros key. rewrite list_elem_of_In, filter_In, <- list_elem_of_In, not_firmware_iff.
    rewrite Hperm, bindings_lookup.
    split; intros [Hin Hf]; (split; [|exact Hf]).
    + apply list_elem_of_fmap in Hin as ([k v] & -> & Hin). simpl.
      destruct (assoc k (own o)) as [v'|] eqn:Hv; [eauto|].
      exfalso. clear -Hin Hv. induction (own o) as [|[k' v'] ps IH].
      * by apply elem_of_nil in Hin.
      * simpl in Hv. destruct (String.eqb k k') eqn:E; [discriminate|].
        apply elem_of_cons in Hin as [[= -> ->]|Hin];
          [by rewrite String.eqb_refl in E | by apply IH].
    + destruct Hin as [v Hv]. by eapply assoc_Some_key.
Qed.

Lemma X13_other_attributes_listed_witness :
  let attrs := TArr [TObj [("name", TStr "MODE"); ("value", TStr "office")];
                     TObj [("name", TStr "10"); ("value", TStr "ten")];
                     TObj [("name", TStr "FIRMWARE_VERSION"); ("value", TStr "2.1.0")];
                     TObj [("name", TStr "2"); ("value", TStr "two")]] in
  let o := {| own := [("MODE", Some (TStr "office"));
                      ("10", Some (TStr "ten"));
                      ("FIRMWARE_VERSION", Some (TStr "2.1.0"));
                      ("2", Some (TStr "two"))];
              proto := None |} in
  normalize_attributes attrs = Ret o /\
  own_keys (own o) = ["2"; "10"; "MODE"; "FIRMWARE_VERSION"] /\
  NoDup (own_keys (own o)).
Proof.
  intros attrs o.
  assert (Hrun : normalize_attributes attrs = Ret o) by reflexivity.
  split; [exact Hrun|]. split; [reflexivity|].
  exact (proj1 (proj2 (X13_other_attributes_listed attrs o Hrun))).
Defined.

(** ** Which response for which body *)

(** The complete table of the handler: either nothing truthy was parsed and
    the answer is 400, or the parsed tree falls in one of the five cases
    of [dispatch]. *)
Lemma respond_cases
    (now : string) (parse : Xml2js.ParserOptions -> string -> outcome (option tree))
    (req : request) :
  (respond now parse req = invalid_soap /\
   forall p, parse parserOptions (body req) = Ret (Some p) -> truthy (Some p) = false) \/
  (exists p, parse parserOptions (body req) = Ret (Some p) /\
     truthy (Some p) = true /\
     let nu := get_opt (soap_body p) "notifyUpdated" in
     let ne := get_opt (soap_body p) "newEvent" in
     (truthy nu = true /\ status_printable (get_opt nu "accessPoint") = true /\
      respond now parse req = acknowledged notifyUpdated_envelope) \/
     (truthy nu = true /\ status_printable (get_opt nu "accessPoint") = false /\
      respond now parse req = internal_error) \/
     (truthy nu = false /\ truthy ne = true /\
      event_printable (get_opt ne "logEntry") = true /\
      respond now parse req = acknowledged newEvent_envelope) \/
     (truthy nu = false /\ truthy ne = true /\
      event_printable (get_opt ne "logEntry") = false /\
      respond now parse req = internal_error) \/
     (truthy nu = false /\ truthy ne = false /\
      respond now parse req = acknowledged unknown_envelope)).
Proof.
  destruct (parse parserOptions (body req)) as [[p|]|e] eqn:Hp.
  - destruct (truthy (Some p)) eqn:Ht.
    + right. exists p. split; [done|]. split; [done|]. cbv zeta.
      destruct (dispatch_cases (soap_body p))
        as [(Hn & Ha & H)|[(Hn & Ha & e & H)|[(Hn & He & Hl & H)|
            [(Hn & He & Hl & e & H)|(Hn & He & H)]]]];
        destruct (respond_of_dispatch now parse req p _ Hp Ht (H now)) as [_ Hs];
        simpl in Hs.
      * left. done.
      * right; left. done.
      * right; right; left. done.
      * right; right; right; left. done.
      * right; right; right; right. done.
    + left. assert (Hno : forall p', Ret (Some p) = Ret (Some p') -> truthy (Some p') = false).
      { intros p' Hq. by injection Hq as <-. }
      split; [|exact Hno].
      apply respond_unparsed. intros p' Hq. apply Hno. by rewrite <- Hp, Hq.
  - left. split; [|discriminate].
    apply respond_unparsed. intros p' Hq. rewrite Hp in Hq. discriminate.
  - left. split; [|discriminate].
    apply respond_unparsed. intros p' Hq. rewrite Hp in Hq. discriminate.
Qed.

Ltac response_clash H :=
  first [ discriminate H
        | exfalso; injection H as H; vm_compute in H; discriminate H ].

Ltac by_respond_cases now parse req Hr p Hp :=
  let Hs := fresh "Hs" in
  destruct (respond_cases now parse req)
    as [[Hs _]|(p & Hp & ? & [(? & ? & Hs)|[(? & ? & Hs)|[(? & ? & ? & Hs)|
        [(? & ? & ? & Hs)|(? & ? & Hs)]]]])];
  rewrite Hs in Hr; try response_clash Hr.

(** X14: each acknowledgement is sent only in its own case.  The
    StatusUpdate envelope is the response exactly when a non-empty
    [notifyUpdated] has an [accessPoint] that can be logged to the end;
    the event envelope exactly when, without a non-empty [notifyUpdated], a
    non-empty [newEvent] has a [logEntry] child that can be logged to the
    end; the empty-body envelope exactly when the body parsed and neither
    child is non-empty. *)
Theorem X14_envelope_iff
    (now : string) (parse : Xml2js.ParserOptions -> string -> outcome (option tree))
    (req : request) :
  (respond now parse req = acknowledged notifyUpdated_envelope <->
   exists p, parse parserOptions (body req) = Ret (Some p) /\
     truthy (get_opt (soap_body p) "notifyUpdated") = true /\
     status_printable (get_opt (get_opt (soap_body p) "notifyUpdated") "accessPoint")
       = true) /\
  (respond now parse req = acknowledged newEvent_envelope <->
   exists p, parse parserOptions (body req) = Ret (Some p) /\
     truthy (get_opt (soap_body p) "notifyUpdated") = false /\
     truthy (get_opt (soap_body p) "newEvent") = true /\
     event_printable (get_opt (get_opt (soap_body p) "newEvent") "logEntry") = true) /\
  (respond now parse req = acknowledged unknown_envelope <->
   exists p, parse parserOptions (body req) = Ret (Some p) /\
     truthy (Some p) = true /\
     truthy (get_opt (soap_body p) "notifyUpdated") = false /\
     truthy (get_opt (soap_body p) "newEvent") = false).
Proof.
  split; [|split]; split.
  - intros Hr. by_respond_cases now parse req Hr p Hp. by exists p.
  - intros (p & Hp & Hn & Ha).
    eapply respond_dispatched; [exact Hp | | by apply dispatch_notifyUpdated].
    apply soap_body_truthy. by eapply get_opt_truthy_is_Some.
  - intros Hr. by_respond_cases now parse req Hr p Hp. by exists p.
  - intros (p & Hp & Hn & He & Hl).
    eapply respond_dispatched; [exact Hp | | by apply dispatch_newEvent].
    apply soap_body_truthy. by eapply get_opt_truthy_is_Some.
  - intros Hr. by_respond_cases now parse req Hr p Hp. by exists p.
  - intros (p & Hp & Ht & Hn & He).
    eapply respond_dispatched; [exact Hp | exact Ht | by apply dispatch_unknown].
Qed.

(** X15: the handler answers 400 exactly when the parser threw or resolved
    with nothing truthy; a body that parsed to a tree is never answered
    400, whatever the tree holds. *)
Theorem X15_invalid_soap_iff
    (now : string) (parse : Xml2js.ParserOptions -> string -> outcome (option tree))
    (req : request) :
  respond now parse req = invalid_soap <->
  forall p, parse parserOptions (body req) = Ret (Some p) -> truthy (Some p) = false.
Proof.
  split.
  - intros Hr.
    destruct (respond_cases now parse req)
      as [[_ Hno]|(p & Hp & Ht & [(Hn & Ha & Hs)|[(Hn & Ha & Hs)|[(Hn & He & Hl & Hs)|
          [(Hn & He & Hl & Hs)|(Hn & He & Hs)]]]])];
      [exact Hno | | | | | ]; rewrite Hs in Hr; discriminate Hr.
  - intros Hno. by apply respond_unparsed.
Qed.

(** X16: an access point that is not an object, as when the element is
    repeated (an array) or holds only text, is read as a status of six
    placeholders and no attributes. *)
Theorem X16_non_object_accessPoint (ap : tree) :
  (forall props, ap <> TObj props) ->
  truthy (Some ap) = true ->
  extractFirmwareStatus (Some ap) =
  Ret (Some {| accessPointId := TStr "N/A";
               serialNumber := TStr "N/A";
               online := TStr "N/A";
               syncStatus := TStr "N/A";
               firmwareUpgradeStatus := TStr "N/A";
               timeOfLastFirmwareUpgrade := TStr "N/A";
               attributes := empty_object |}).
Proof.
  intros Hobj Ht. unfold extractFirmwareStatus. rewrite Ht.
  destruct ap as [s|props|items]; [done | by destruct (Hobj props) | done].
Qed.

Lemma X16_non_object_accessPoint_witness :
  let ap := TArr [TObj [("id", TStr "AP-100")]; TObj [("id", TStr "AP-200")]] in
  exists st, extractFirmwareStatus (Some ap) = Ret (Some st) /\
             accessPointId st = TStr "N/A" /\ attributes st = empty_object.
Proof.
  intros ap.
  assert (Hobj : forall props, ap <> TObj props) by discriminate.
  assert (Ht : truthy (Some ap) = true) by reflexivity.
  eexists. split; [exact (X16_non_object_accessPoint ap Hobj Ht) | split; reflexivity].
Defined.
